(** * Vehicle tracking backend: Kalman smoothing, ingestion, cache and broadcast

    A shallow embedding of

      - [backend/services/fusion/kalman_filter.py]   (module [Kalman]),
      - [backend/services/fusion/service.py]         (module [Fusion]),
      - [backend/services/ingestion/service.py] and
        [database/redis_manager.py]                  (module [Ingestion]),
      - [backend/services/routing/optimizer.py]      (module [Routing]),
      - [backend/services/prediction/service.py]     (module [Prediction]),
      - [backend/api_gateway/main.py]                (module [Gateway]).

    Numbers.  The Python code computes on IEEE binary64 values through
    numpy.  The filter is embedded twice.  Module [Kalman] computes on
    exact rationals (the canonical fractions [Qc], with Leibniz equality):
    the arithmetic the code spells out, without rounding, infinities or
    NaN.  Module [Binary64] computes on binary64 values (the primitive
    floats of the kernel), rounding after every operation as numpy does:
    what is said of singular innovation covariances, of NaN and of the
    symmetry and the sign of the covariance as the code computes it is
    said there.

    Concurrency.  The handlers are modelled one call at a time: the
    interleavings of [await] points are outside the embedding.

    Time.  A Redis key is stored with its time to live and read while it
    lives: the expiry of keys is outside the embedding. *)

From Stdlib Require Import QArith Qcanon Lia List ZArith.
From Stdlib Require PrimFloat.
From stdpp Require Import gmap strings pretty.
Import ListNotations.

(** ** Results of fallible calls *)

Inductive result (E A : Type) : Type :=
| Ok (a : A)
| Err (e : E).
Arguments Ok {E A} a.
Arguments Err {E A} e.

(** ** numpy arrays of rank one and two *)

Module LinAlg.
Local Open Scope Qc_scope.

Definition vec := list Qc.
Definition mat := list (list Qc).

Definition vsum (v : vec) : Qc := fold_right Qcplus 0 v.

Fixpoint vzip (f : Qc -> Qc -> Qc) (u v : vec) : vec :=
  match u, v with
  | a :: u', b :: v' => f a b :: vzip f u' v'
  | _, _ => []
  end.

Fixpoint mzip (f : Qc -> Qc -> Qc) (M N : mat) : mat :=
  match M, N with
  | r :: M', s :: N' => vzip f r s :: mzip f M' N'
  | _, _ => []
  end.

(** Inner product of two rank-one arrays. *)
Definition dotp (u v : vec) : Qc := vsum (vzip Qcmult u v).

Definition ncols (M : mat) : nat := length (hd [] M).
Definition col (j : nat) (M : mat) : vec := map (fun r => nth j r 0) M.

(** [M.T] *)
Definition transpose (M : mat) : mat :=
  map (fun j => col j M) (seq 0 (ncols M)).

(** [np.dot(M, v)] for a matrix and a vector. *)
Definition dot_mv (M : mat) (v : vec) : vec := map (fun r => dotp r v) M.

(** [np.dot(M, N)] for two matrices. *)
Definition dot_mm (M N : mat) : mat :=
  map (fun r => map (fun j => dotp r (col j N)) (seq 0 (ncols N))) M.

Definition vadd : vec -> vec -> vec := vzip Qcplus.
Definition vsub : vec -> vec -> vec := vzip Qcminus.
Definition madd : mat -> mat -> mat := mzip Qcplus.
Definition msub : mat -> mat -> mat := mzip Qcminus.

(** [np.eye(n)] *)
Definition eye (n : nat) : mat :=
  map (fun i => map (fun j => if Nat.eqb i j then 1 else 0) (seq 0 n))
      (seq 0 n).

(** [M * c] for a scalar [c] *)
Definition mscale (M : mat) (c : Qc) : mat := map (map (fun a => a * c)) M.

Definition det2 (a b c d : Qc) : Qc := a * d - b * c.

(** [np.linalg.inv] at the only shape the filter calls it with, 2 x 2.
    numpy raises [LinAlgError("Singular matrix")] when the factorisation
    meets a zero pivot; in exact arithmetic that is a zero determinant.
    [None] stands for the exception. *)
Definition inv (M : mat) : option mat :=
  match M with
  | [[a; b]; [c; d]] =>
      let dt := det2 a b c d in
      if decide (dt = 0) then None
      else Some [[d / dt; - b / dt]; [- c / dt; a / dt]]
  | _ => None
  end.

(** [np.linalg.det] at the same shape. *)
Definition det (M : mat) : Qc :=
  match M with
  | [[a; b]; [c; d]] => det2 a b c d
  | _ => 0
  end.

(** Entry [(i, j)], zero outside the array. *)
Definition entry (M : mat) (i j : nat) : Qc := nth j (nth i M []) 0.

Definition symmetric (M : mat) : Prop := transpose M = M.

(** The quadratic form [v^T M v]. *)
Definition quad (M : mat) (v : vec) : Qc := dotp v (dot_mv M v).

(** Positive semi-definite: the quadratic form is nowhere negative. *)
Definition psd (M : mat) : Prop :=
  forall v, length v = length M -> 0 <= quad M v.

Definition shape (n m : nat) (M : mat) : Prop :=
  length M = n /\ Forall (fun r => length r = m) M.

End LinAlg.

(** ** [kalman_filter.py] *)

Module Kalman.
Import LinAlg.
Local Open Scope Qc_scope.

Inductive error := LinAlgError.

(** The attributes of a [KalmanFilter] object. *)
Record KalmanFilter := mkKF {
  dt : Qc;
  A : mat;
  H : mat;
  Q : mat;
  R : mat;
  P : mat;
  x : vec;
  initialized : bool
}.

Definition set_x (kf : KalmanFilter) (x' : vec) : KalmanFilter :=
  mkKF (dt kf) (A kf) (H kf) (Q kf) (R kf) (P kf) x' (initialized kf).
Definition set_P (kf : KalmanFilter) (P' : mat) : KalmanFilter :=
  mkKF (dt kf) (A kf) (H kf) (Q kf) (R kf) P' (x kf) (initialized kf).
Definition set_initialized (kf : KalmanFilter) (b : bool) : KalmanFilter :=
  mkKF (dt kf) (A kf) (H kf) (Q kf) (R kf) (P kf) (x kf) b.

Definition A_matrix (d : Qc) : mat :=
  [[1; 0; d; 0];
   [0; 1; 0; d];
   [0; 0; 1; 0];
   [0; 0; 0; 1]].

Definition H_matrix : mat :=
  [[1; 0; 0; 0];
   [0; 1; 0; 0]].

Definition default_noise : Qc := Q2Qc 0.001.

(** [KalmanFilter.__init__(process_noise, measurement_noise)] *)
Definition init (process_noise measurement_noise : Qc) : KalmanFilter :=
  let d := 1 in
  {| dt := d;
     A := A_matrix d;
     H := H_matrix;
     Q := mscale (eye 4) process_noise;
     R := mscale (eye 2) measurement_noise;
     P := eye 4;
     x := repeat 0 4;
     initialized := false |}.

(** [KalmanFilter.predict]: returns [x[:2]] and the mutated object. *)
Definition predict (kf : KalmanFilter) : vec * KalmanFilter :=
  let kf1 := set_x kf (dot_mv (A kf) (x kf)) in
  let kf2 :=
    set_P kf1 (madd (dot_mm (dot_mm (A kf1) (P kf1)) (transpose (A kf1)))
                    (Q kf1)) in
  (firstn 2 (x kf2), kf2).

(** A measurement is the two-element list [[lat, lon]] every caller
    passes. *)
Definition measurement := (Qc * Qc)%type.
Definition as_array (m : measurement) : vec := [fst m; snd m].

(** [KalmanFilter.update].  The exception of [np.linalg.inv] leaves the
    function before [self.x] and [self.P] are assigned. *)
Definition update (kf : KalmanFilter) (m : measurement)
  : result error vec * KalmanFilter :=
  let z := as_array m in
  if negb (initialized kf) then
    (* self.x[:2] = z *)
    let kf1 := set_x kf (vzip (fun _ b => b) (firstn 2 (x kf)) z
                         ++ skipn 2 (x kf)) in
    (* self.x[2:] = 0 *)
    let kf2 := set_x kf1 (firstn 2 (x kf1)
                          ++ map (fun _ => 0) (skipn 2 (x kf1))) in
    let kf3 := set_initialized kf2 true in
    (Ok (firstn 2 (x kf3)), kf3)
  else
    let S := madd (dot_mm (dot_mm (H kf) (P kf)) (transpose (H kf))) (R kf) in
    match inv S with
    | None => (Err LinAlgError, kf)
    | Some Si =>
        let K := dot_mm (dot_mm (P kf) (transpose (H kf))) Si in
        let y := vsub z (dot_mv (H kf) (x kf)) in
        let kf1 := set_x kf (vadd (x kf) (dot_mv K y)) in
        let I := eye 4 in
        let kf2 := set_P kf1 (dot_mm (msub I (dot_mm K (H kf1))) (P kf1)) in
        (Ok (firstn 2 (x kf2)), kf2)
    end.

(** [KalmanFilter.process] *)
Definition process (kf : KalmanFilter) (m : measurement)
  : result error vec * KalmanFilter :=
  let '(_, kf1) := predict kf in
  update kf1 m.

(** The innovation covariance [S] that [update] inverts. *)
Definition innovation_cov (kf : KalmanFilter) : mat :=
  madd (dot_mm (dot_mm (H kf) (P kf)) (transpose (H kf))) (R kf).

(** Calls a client can make on a filter object, and the object after a
    sequence of them (an exception of [update] is caught by the client,
    the object stays as the call left it). *)
Inductive call :=
| Predict
| Update (m : measurement).

Definition step (kf : KalmanFilter) (c : call) : KalmanFilter :=
  match c with
  | Predict => snd (predict kf)
  | Update m => snd (update kf m)
  end.

Definition run (kf : KalmanFilter) (calls : list call) : KalmanFilter :=
  fold_left step calls kf.

(** The states of a filter constructed with the given noise magnitudes. *)
Inductive reachable (q r : Qc) : KalmanFilter -> Prop :=
| reach_init : reachable q r (init q r)
| reach_step kf c : reachable q r kf -> reachable q r (step kf c).

(** What the constructor fixes once and for all, and the array shapes. *)
Definition configured (q r : Qc) (kf : KalmanFilter) : Prop :=
  A kf = A_matrix 1 /\ H kf = H_matrix /\
  Q kf = mscale (eye 4) q /\ R kf = mscale (eye 2) r.

Definition well_shaped (kf : KalmanFilter) : Prop :=
  shape 4 4 (P kf) /\ length (x kf) = 4%nat.

Definition mat44 (p00 p01 p02 p03 p10 p11 p12 p13
                  p20 p21 p22 p23 p30 p31 p32 p33 : Qc) : mat :=
  [[p00; p01; p02; p03];
   [p10; p11; p12; p13];
   [p20; p21; p22; p23];
   [p30; p31; p32; p33]].

Definition mat42 (k00 k01 k10 k11 k20 k21 k30 k31 : Qc) : mat :=
  [[k00; k01]; [k10; k11]; [k20; k21]; [k30; k31]].

(** The matrices [update] builds from [P], the gain [K] and the
    measurement noise [r], and the covariance [predict] builds from [P]
    and the process noise [q]. *)
Definition S_of (Pm : mat) (r : Qc) : mat :=
  madd (dot_mm (dot_mm H_matrix Pm) (transpose H_matrix)) (mscale (eye 2) r).
Definition K_of (Pm Si : mat) : mat :=
  dot_mm (dot_mm Pm (transpose H_matrix)) Si.
Definition IKH (K : mat) : mat := msub (eye 4) (dot_mm K H_matrix).
Definition posterior (Pm K : mat) : mat := dot_mm (IKH K) Pm.
Definition prior (Pm : mat) (q : Qc) : mat :=
  madd (dot_mm (dot_mm (A_matrix 1) Pm) (transpose (A_matrix 1)))
       (mscale (eye 4) q).
(** Joseph's form of the posterior covariance. *)
Definition joseph (Pm K : mat) (r : Qc) : mat :=
  madd (dot_mm (dot_mm (IKH K) Pm) (transpose (IKH K)))
       (dot_mm (dot_mm K (mscale (eye 2) r)) (transpose K)).

(** A filter built with zero noise that has absorbed the same measurement
    three times, after the prediction of a fourth call of [process]. *)
Definition degenerate_filter : KalmanFilter :=
  run (init 0 0)
      [Predict; Update (1, 1); Predict; Update (1, 1);
       Predict; Update (1, 1); Predict].

(** The specification's wording of the degenerate case: the correction is
    skipped, the state stays at its prediction and the caller is handed a
    success. *)
Definition fails_closed (kf : KalmanFilter) (m : measurement) : Prop :=
  initialized kf = true -> det (innovation_cov kf) = 0 ->
  exists pos, update kf m = (Ok pos, kf).

(** *** Vocabulary of further statements about the filter *)

(** A call that hands the filter a measurement. *)
Definition is_update (c : call) : bool :=
  match c with
  | Predict => false
  | Update _ => true
  end.

(** Two calls of the same method. *)
Definition same_kind (c1 c2 : call) : Prop := is_update c1 = is_update c2.

(** A 4x4 array whose entries [(i, j)] with [i + j] odd are zero: nothing
    couples a latitude component with a longitude component. *)
Definition checkerboard (M : mat) : Prop :=
  forall i j, (i < 4)%nat -> (j < 4)%nat -> Nat.odd (i + j) = true ->
              entry M i j = 0.

(** The 4x4 array with that pattern and the given other entries. *)
Definition chk44 (p00 p02 p11 p13 p20 p22 p31 p33 : Qc) : mat :=
  mat44 p00 0 p02 0  0 p11 0 p13  p20 0 p22 0  0 p31 0 p33.

(** Two filters with the same matrices and the same flag; their state
    vectors may differ. *)
Definition same_but_x (kf1 kf2 : KalmanFilter) : Prop :=
  A kf1 = A kf2 /\ H kf1 = H kf2 /\ Q kf1 = Q kf2 /\ R kf1 = R kf2 /\
  P kf1 = P kf2 /\ initialized kf1 = initialized kf2.

(** Two fixes of a vehicle in Mumbai, each handed to [process]. *)
Definition two_fixes : list call :=
  [Predict; Update (Q2Qc 19.0760, Q2Qc 72.8777);
   Predict; Update (Q2Qc 19.0761, Q2Qc 72.8778)].

End Kalman.


(** ** [kalman_filter.py] in binary64

    The same class on the numbers numpy computes with: IEEE binary64
    values, rounded to nearest after every sum, difference, product and
    quotient, with infinities and NaN.  Module [Kalman] above is the
    arithmetic of the code without rounding; this module is the
    arithmetic of the code as it runs.  A decimal literal stands for the
    nearest binary64 value, as it does in Python. *)

Module Binary64.
Import PrimFloat.
Local Open Scope float_scope.
Set Warnings "-inexact-float".

Definition vec := list float.
Definition mat := list (list float).

Fixpoint vzip (f : float -> float -> float) (u v : vec) : vec :=
  match u, v with
  | a :: u', b :: v' => f a b :: vzip f u' v'
  | _, _ => []
  end.

Fixpoint mzip (f : float -> float -> float) (M N : mat) : mat :=
  match M, N with
  | r :: M', s :: N' => vzip f r s :: mzip f M' N'
  | _, _ => []
  end.

(** Inner product of two rank-one arrays: the products are added to an
    accumulator that starts at zero, in the order of the index. *)
Definition dotp (u v : vec) : float := fold_left add (vzip mul u v) 0.

Definition ncols (M : mat) : nat := length (hd [] M).
Definition col (j : nat) (M : mat) : vec := map (fun r => nth j r 0) M.

(** [M.T] *)
Definition transpose (M : mat) : mat :=
  map (fun j => col j M) (seq 0 (ncols M)).

(** [np.dot(M, v)] and [np.dot(M, N)] *)
Definition dot_mv (M : mat) (v : vec) : vec := map (fun r => dotp r v) M.
Definition dot_mm (M N : mat) : mat :=
  map (fun r => map (fun j => dotp r (col j N)) (seq 0 (ncols N))) M.

Definition vadd : vec -> vec -> vec := vzip add.
Definition vsub : vec -> vec -> vec := vzip sub.
Definition madd : mat -> mat -> mat := mzip add.
Definition msub : mat -> mat -> mat := mzip sub.

(** [np.eye(n)] and [M * c] *)
Definition eye (n : nat) : mat :=
  map (fun i => map (fun j => if Nat.eqb i j then 1 else 0) (seq 0 n))
      (seq 0 n).
Definition mscale (M : mat) (c : float) : mat := map (map (fun a => a * c)) M.

(** Entry [(i, j)], zero outside the array. *)
Definition entry (M : mat) (i j : nat) : float := nth j (nth i M []) 0.

(** The smallest normal number: below it LAPACK divides by a pivot
    instead of multiplying by its reciprocal. *)
Definition sfmin : float := 0x1p-1022.

(** [np.linalg.inv] at the shape the filter calls it with, 2 x 2: LAPACK's
    [gesv] on the identity, that is the factorisation with row pivoting
    followed by the two triangular solves.  numpy raises
    [LinAlgError("Singular matrix")] when a pivot is exactly zero, and
    only then: an overflow or a NaN in the solves is returned as it is.
    [None] stands for the exception. *)
Definition inv (M : mat) : option mat :=
  match M with
  | [[a; b]; [c; d]] =>
      let swap := abs a <? abs c in
      let '(p, q, r, s) := if swap then (c, d, a, b) else (a, b, c, d) in
      if p =? 0 then None
      else
        let l := if sfmin <=? abs p then r * (1 / p) else r / p in
        let u := s - l * q in
        if u =? 0 then None
        else
          let solve (b0 b1 : float) :=
            let y1 := b1 - l * b0 in
            let x1 := y1 / u in
            let x0 := (b0 - q * x1) / p in
            (x0, x1) in
          let '(x00, x10) := if swap then solve 0 1 else solve 1 0 in
          let '(x01, x11) := if swap then solve 1 0 else solve 0 1 in
          Some [[x00; x01]; [x10; x11]]
  | _ => None
  end.

(** The attributes of a [KalmanFilter] object. *)
Record KalmanFilter := mkKF {
  dt : float;
  A : mat;
  H : mat;
  Q : mat;
  R : mat;
  P : mat;
  x : vec;
  initialized : bool
}.

Definition set_x (kf : KalmanFilter) (x' : vec) : KalmanFilter :=
  mkKF (dt kf) (A kf) (H kf) (Q kf) (R kf) (P kf) x' (initialized kf).
Definition set_P (kf : KalmanFilter) (P' : mat) : KalmanFilter :=
  mkKF (dt kf) (A kf) (H kf) (Q kf) (R kf) P' (x kf) (initialized kf).
Definition set_initialized (kf : KalmanFilter) (b : bool) : KalmanFilter :=
  mkKF (dt kf) (A kf) (H kf) (Q kf) (R kf) (P kf) (x kf) b.

(** [KalmanFilter.__init__(process_noise, measurement_noise)] *)
Definition init (process_noise measurement_noise : float) : KalmanFilter :=
  let d := 1 in
  {| dt := d;
     A := [[1; 0; d; 0];
           [0; 1; 0; d];
           [0; 0; 1; 0];
           [0; 0; 0; 1]];
     H := [[1; 0; 0; 0];
           [0; 1; 0; 0]];
     Q := mscale (eye 4) process_noise;
     R := mscale (eye 2) measurement_noise;
     P := eye 4;
     x := repeat 0 4;
     initialized := false |}.

(** [KalmanFilter.predict] *)
Definition predict (kf : KalmanFilter) : vec * KalmanFilter :=
  let kf1 := set_x kf (dot_mv (A kf) (x kf)) in
  let kf2 :=
    set_P kf1 (madd (dot_mm (dot_mm (A kf1) (P kf1)) (transpose (A kf1)))
                    (Q kf1)) in
  (firstn 2 (x kf2), kf2).

Definition measurement := (float * float)%type.
Definition as_array (m : measurement) : vec := [fst m; snd m].

(** [KalmanFilter.update] *)
Definition update (kf : KalmanFilter) (m : measurement)
  : result Kalman.error vec * KalmanFilter :=
  let z := as_array m in
  if negb (initialized kf) then
    (* self.x[:2] = z *)
    let kf1 := set_x kf (vzip (fun _ b => b) (firstn 2 (x kf)) z
                         ++ skipn 2 (x kf)) in
    (* self.x[2:] = 0 *)
    let kf2 := set_x kf1 (firstn 2 (x kf1)
                          ++ map (fun _ => 0) (skipn 2 (x kf1))) in
    let kf3 := set_initialized kf2 true in
    (Ok (firstn 2 (x kf3)), kf3)
  else
    let S := madd (dot_mm (dot_mm (H kf) (P kf)) (transpose (H kf))) (R kf) in
    match inv S with
    | None => (Err Kalman.LinAlgError, kf)
    | Some Si =>
        let K := dot_mm (dot_mm (P kf) (transpose (H kf))) Si in
        let y := vsub z (dot_mv (H kf) (x kf)) in
        let kf1 := set_x kf (vadd (x kf) (dot_mv K y)) in
        let I := eye 4 in
        let kf2 := set_P kf1 (dot_mm (msub I (dot_mm K (H kf1))) (P kf1)) in
        (Ok (firstn 2 (x kf2)), kf2)
    end.

(** [KalmanFilter.process] *)
Definition process (kf : KalmanFilter) (m : measurement)
  : result Kalman.error vec * KalmanFilter :=
  let '(_, kf1) := predict kf in
  update kf1 m.

(** The innovation covariance [S] that [update] inverts. *)
Definition innovation_cov (kf : KalmanFilter) : mat :=
  madd (dot_mm (dot_mm (H kf) (P kf)) (transpose (H kf))) (R kf).

Inductive call :=
| Predict
| Update (m : measurement).

Definition step (kf : KalmanFilter) (c : call) : KalmanFilter :=
  match c with
  | Predict => snd (predict kf)
  | Update m => snd (update kf m)
  end.

Definition run (kf : KalmanFilter) (calls : list call) : KalmanFilter :=
  fold_left step calls kf.

(** *** Vocabulary of the statements about the filter in binary64 *)

(** The default arguments of the constructor. *)
Definition default_noise : float := 0.001.

(** Two fixes of a vehicle in Mumbai, each handed to [process]. *)
Definition two_fixes : list call :=
  [Predict; Update (19.0760, 72.8777); Predict; Update (19.0761, 72.8778)].

(** The same measurement handed to [process] three times. *)
Definition thrice (m : measurement) : list call :=
  [Predict; Update m; Predict; Update m; Predict; Update m].

(** [KalmanFilter(0, 0)] and [KalmanFilter(0, 1e-320)], each after three
    calls [process([1, 1])] and the prediction of a fourth. *)
Definition degenerate_filter : KalmanFilter :=
  run (init 0 0) (thrice (1, 1) ++ [Predict]).
Definition near_singular_filter : KalmanFilter :=
  run (init 0 1e-320) (thrice (1, 1) ++ [Predict]).

(** Three predictions, two updates and three predictions; on
    [KalmanFilter(0, 0)] they are followed by one more update. *)
Definition coasting : list call :=
  repeat Predict 3 ++ [Update (1, 1); Update (1, 1)] ++ repeat Predict 3.
Definition rounded_below_zero : KalmanFilter :=
  run (init 0 0) (coasting ++ [Update (1, 1)]).

(** [KalmanFilter(process_noise=-5)] after one prediction. *)
Definition negative_noise_filter : KalmanFilter :=
  run (init (-5) default_noise) [Predict].

(** The specification's wording of the invariant, on binary64 values:
    every entry equals its mirror image, and no diagonal entry is
    negative. *)
Definition symmetric (M : mat) : Prop :=
  forall i j, (entry M i j =? entry M j i) = true.
Definition nonneg_diagonal (M : mat) : Prop :=
  forall i, (i < length M)%nat -> (0 <=? entry M i i) = true.

End Binary64.

(** ** HTTP outcomes shared by the routers *)

Inductive validation_error :=
| MissingField (name : string)
| ConstraintViolated (name : string).

Inductive http_error :=
| HTTPException (status_code : nat) (detail : string)
| RequestValidationError (e : validation_error)   (* 422, raised by the framework *)
| InternalServerError.                            (* 500, an exception left the handler *)

(** ** [fusion/service.py] *)

Module Fusion.
Import LinAlg Kalman.
Local Open Scope Qc_scope.

Record GeoPoint := mkGeoPoint { lat : Qc; lon : Qc }.

Record CorrectionRequest := mkCorrectionRequest {
  vehicle_id : string;
  measurement : GeoPoint
}.

Record ResetResponse := mkResetResponse {
  status : string;
  reset_vehicle_id : string
}.

(** [correct_position], on the module-level dict [vehicle_filters].
    The filter object stored in the dict is mutated in place by
    [process], also when [process] raises. *)
Definition correct_position (request : CorrectionRequest)
    (vehicle_filters : gmap string KalmanFilter)
  : result http_error GeoPoint * gmap string KalmanFilter :=
  let vid := vehicle_id request in
  let vehicle_filters :=
    match vehicle_filters !! vid with
    | None => <[vid := init (Q2Qc 0.0001) (Q2Qc 0.01)]> vehicle_filters
    | Some _ => vehicle_filters
    end in
  match vehicle_filters !! vid with
  | None => (Err InternalServerError, vehicle_filters)
  | Some kf =>
      let '(res, kf') :=
        process kf (lat (measurement request), lon (measurement request)) in
      let vehicle_filters := <[vid := kf']> vehicle_filters in
      match res with
      | Ok corrected =>
          (Ok (mkGeoPoint (nth 0 corrected 0) (nth 1 corrected 0)),
           vehicle_filters)
      | Err LinAlgError => (Err InternalServerError, vehicle_filters)
      end
  end.

(** [reset_filter] *)
Definition reset_filter (vehicle_id : string)
    (vehicle_filters : gmap string KalmanFilter)
  : result http_error ResetResponse * gmap string KalmanFilter :=
  match vehicle_filters !! vehicle_id with
  | Some _ =>
      (Ok (mkResetResponse "reset" vehicle_id),
       delete vehicle_id vehicle_filters)
  | None =>
      (Err (HTTPException 404 "Vehicle filter not found"), vehicle_filters)
  end.

(** The two samples of the example scenario. *)
Definition sample1 : CorrectionRequest :=
  mkCorrectionRequest "7" (mkGeoPoint (Q2Qc 19.0760) (Q2Qc 72.8777)).
Definition sample2 : CorrectionRequest :=
  mkCorrectionRequest "7" (mkGeoPoint (Q2Qc 19.0761) (Q2Qc 72.8778)).

(** A position outside the range of latitudes or of longitudes. *)
Definition outside_range (p : GeoPoint) : Prop :=
  lat p < Qc_of_Z (-90) \/ Qc_of_Z 90 < lat p \/
  lon p < Qc_of_Z (-180) \/ Qc_of_Z 180 < lon p.

(** A request that puts vehicle ["7"] at latitude 91. *)
Definition north_of_pole : CorrectionRequest :=
  mkCorrectionRequest "7" (mkGeoPoint (Qc_of_Z 91) (Q2Qc 72.8777)).

(** *** Vocabulary of further statements about the router *)

(** The calls a client makes on the router. *)
Inductive request :=
| Correct (body : CorrectionRequest)
| Reset (vehicle_id : string).

(** The registry after a call, whatever the answer was. *)
Definition handle (vehicle_filters : gmap string KalmanFilter) (rq : request)
  : gmap string KalmanFilter :=
  match rq with
  | Correct body => snd (correct_position body vehicle_filters)
  | Reset vid => snd (reset_filter vid vehicle_filters)
  end.

Definition serve (vehicle_filters : gmap string KalmanFilter)
    (rqs : list request) : gmap string KalmanFilter :=
  fold_left handle rqs vehicle_filters.

(** The vehicle a call is about. *)
Definition concerns (vid : string) (rq : request) : bool :=
  match rq with
  | Correct body => bool_decide (vehicle_id body = vid)
  | Reset v => bool_decide (v = vid)
  end.

End Fusion.

(** ** [ingestion/service.py] with [database/redis_manager.py] *)

Module Ingestion.
Import LinAlg Kalman.
Local Open Scope Qc_scope.

(** Points in time ([datetime]) are opaque to the handlers: seconds. *)
Definition datetime := Z.

(** The JSON body of a request, before validation: every key may be
    absent. *)
Record RawTelemetry := mkRaw {
  raw_vehicle_id : option Z;
  raw_latitude : option Qc;
  raw_longitude : option Qc;
  raw_speed : option Qc;
  raw_direction : option Qc;
  raw_accuracy : option Qc;
  raw_altitude : option Qc;
  raw_acceleration : option Qc;
  raw_fuel_level : option Qc;
  raw_timestamp : option datetime
}.

(** [class TelemetryData(BaseModel)] *)
Record TelemetryData := mkTelemetry {
  vehicle_id : Z;
  latitude : Qc;
  longitude : Qc;
  speed : option Qc;
  direction : option Qc;
  accuracy : option Qc;
  altitude : option Qc;
  acceleration : option Qc;
  fuel_level : option Qc;
  timestamp : option datetime
}.

(** [Field(..., ge=lo, le=hi)] on a required field. *)
Definition required_between (name : string) (lo hi : Qc) (v : option Qc)
  : result validation_error Qc :=
  match v with
  | None => Err (MissingField name)
  | Some a =>
      if bool_decide (lo <= a) && bool_decide (a <= hi) then Ok a
      else Err (ConstraintViolated name)
  end.

(** [Field(None, ge=lo)] and [Field(None, ge=lo, le=hi)] on an optional
    field: the constraint bears on a value that is present. *)
Definition optional_check (name : string) (ok : Qc -> bool) (v : option Qc)
  : result validation_error (option Qc) :=
  match v with
  | None => Ok None
  | Some a => if ok a then Ok (Some a) else Err (ConstraintViolated name)
  end.

Definition bind {E A B} (r : result E A) (k : A -> result E B) : result E B :=
  match r with
  | Ok a => k a
  | Err e => Err e
  end.

Notation "'do' x <- r ; k" := (bind r (fun x => k))
  (at level 10, x name, r at level 100, k at level 200).

(** Validation of a body against [TelemetryData], as the framework runs
    it before the handler is entered. *)
Definition validate (raw : RawTelemetry)
  : result validation_error TelemetryData :=
  do vid <- match raw_vehicle_id raw with
            | Some v => Ok v
            | None => Err (MissingField "vehicle_id")
            end;
  do la <- required_between "latitude" (Qc_of_Z (-90)) (Qc_of_Z 90)
             (raw_latitude raw);
  do lo <- required_between "longitude" (Qc_of_Z (-180)) (Qc_of_Z 180)
             (raw_longitude raw);
  do sp <- optional_check "speed" (fun a => bool_decide (0 <= a))
             (raw_speed raw);
  do di <- optional_check "direction"
             (fun a => bool_decide (0 <= a) && bool_decide (a <= Qc_of_Z 360))
             (raw_direction raw);
  do fu <- optional_check "fuel_level"
             (fun a => bool_decide (0 <= a) && bool_decide (a <= Qc_of_Z 100))
             (raw_fuel_level raw);
  Ok (mkTelemetry vid la lo sp di (raw_accuracy raw) (raw_altitude raw)
        (raw_acceleration raw) fu (raw_timestamp raw)).

Fixpoint validate_all (raws : list RawTelemetry)
  : result validation_error (list TelemetryData) :=
  match raws with
  | [] => Ok []
  | raw :: rest =>
      do t <- validate raw;
      do ts <- validate_all rest;
      Ok (t :: ts)
  end.

(** Rows of the tables [vehicles] and [location_tracking]
    ([database/models.py]); a row of [location_tracking] is identified
    by its position in the table ([track_id], autoincrement). *)
Record Vehicle := mkVehicle {
  vehicle_number : string;
  vehicle_type : string
}.

Record LocationTracking := mkLocation {
  loc_vehicle_id : Z;
  loc_position : Qc * Qc;          (* POINT(lon lat) *)
  loc_latitude : Qc;
  loc_longitude : Qc;
  loc_speed : option Qc;
  loc_direction : option Qc;
  loc_accuracy : option Qc;
  loc_altitude : option Qc;
  loc_timestamp : datetime
}.

(** A point written by [influx_manager.write_telemetry]. *)
Record InfluxPoint := mkInflux {
  ip_vehicle_id : Z;
  ip_latitude : Qc;
  ip_longitude : Qc;
  ip_speed : Qc;
  ip_direction : Qc;
  ip_accuracy : Qc;
  ip_altitude : Qc;
  ip_timestamp : datetime;
  ip_acceleration : option Qc;
  ip_fuel_level : option Qc
}.

(** The dict [location_data] that is cached and published. *)
Record LocationData := mkLocationData {
  ld_latitude : Qc;
  ld_longitude : Qc;
  ld_speed : option Qc;
  ld_direction : option Qc;
  ld_timestamp : datetime;
  ld_vehicle_number : string
}.

(** Redis channels [vehicle:updates:<id>] and [vehicle:updates:all];
    on the latter the payload carries the key [vehicle_id] as well. *)
Inductive channel :=
| VehicleUpdates (vehicle_id : Z)
| AllUpdates.

Record Message := mkMessage {
  msg_vehicle_id : option Z;
  msg_body : LocationData
}.

(** Everything the handlers read and write: the relational tables, the
    time series, the module-level dict [kf_storage], the Redis keys
    [vehicle:location:<id>] (with their time to live) and the messages
    published so far.  The stores are taken to be available: a call on
    their client returns. *)
Record State := mkState {
  vehicles : gmap Z Vehicle;
  location_tracking : list LocationTracking;
  influx : list InfluxPoint;
  kf_storage : gmap Z KalmanFilter;
  redis_cache : gmap Z (nat * LocationData);
  redis_published : list (channel * Message)
}.

Definition set_kf_storage (s : State) (kfs : gmap Z KalmanFilter) : State :=
  mkState (vehicles s) (location_tracking s) (influx s) kfs
          (redis_cache s) (redis_published s).

(** [RedisManager.set_vehicle_location] *)
Definition set_vehicle_location (vehicle_id : Z) (location_data : LocationData)
    (ttl : nat) (s : State) : State :=
  mkState (vehicles s) (location_tracking s) (influx s) (kf_storage s)
          (<[vehicle_id := (ttl, location_data)]> (redis_cache s))
          (redis_published s).

Definition default_ttl : nat := 300.

(** [RedisManager.publish_location_update] *)
Definition publish_location_update (vehicle_id : Z)
    (location_data : LocationData) (s : State) : State :=
  mkState (vehicles s) (location_tracking s) (influx s) (kf_storage s)
          (redis_cache s)
          (redis_published s
           ++ [(VehicleUpdates vehicle_id, mkMessage None location_data);
               (AllUpdates, mkMessage (Some vehicle_id) location_data)]).

(** [db.add(record); db.commit()] *)
Definition db_insert (rows : list LocationTracking) (s : State) : State :=
  mkState (vehicles s) (location_tracking s ++ rows) (influx s)
          (kf_storage s) (redis_cache s) (redis_published s).

(** [influx_manager.write_telemetry] *)
Definition write_telemetry (p : InfluxPoint) (s : State) : State :=
  mkState (vehicles s) (location_tracking s) (influx s ++ [p])
          (kf_storage s) (redis_cache s) (redis_published s).

(** [v or 0] *)
Definition or_zero (v : option Qc) : Qc :=
  match v with
  | Some a => a
  | None => 0
  end.

Definition influx_data (vid : Z) (telemetry : TelemetryData) (ts : datetime)
    (with_optional : bool) : InfluxPoint :=
  mkInflux vid (latitude telemetry) (longitude telemetry)
           (or_zero (speed telemetry)) (or_zero (direction telemetry))
           (or_zero (accuracy telemetry)) (or_zero (altitude telemetry)) ts
           (if with_optional then acceleration telemetry else None)
           (if with_optional then fuel_level telemetry else None).

Definition not_found (vehicle_id : Z) : string :=
  "Vehicle " +:+ pretty vehicle_id +:+ " not found".

Record IngestResponse := mkIngestResponse {
  resp_status : string;
  resp_track_id : nat;
  resp_timestamp : datetime
}.

(** [ingest_telemetry]; [now] is what [datetime.utcnow()] returns. *)
Definition ingest_telemetry (now : datetime) (telemetry : TelemetryData)
    (s : State) : result http_error IngestResponse * State :=
  let vid := vehicle_id telemetry in
  match vehicles s !! vid with
  | None => (Err (HTTPException 404 (not_found vid)), s)
  | Some vehicle =>
      let ts := default now (timestamp telemetry) in
      let s :=
        match kf_storage s !! vid with
        | None =>
            set_kf_storage s
              (<[vid := init default_noise default_noise]> (kf_storage s))
        | Some _ => s
        end in
      match kf_storage s !! vid with
      | None => (Err InternalServerError, s)
      | Some kf =>
          let '(res, kf') :=
            process kf (latitude telemetry, longitude telemetry) in
          let s := set_kf_storage s (<[vid := kf']> (kf_storage s)) in
          match res with
          | Err LinAlgError => (Err InternalServerError, s)
          | Ok smoothed_pos =>
              let smoothed_lat := nth 0 smoothed_pos 0 in
              let smoothed_lon := nth 1 smoothed_pos 0 in
              let location_record :=
                mkLocation vid (smoothed_lon, smoothed_lat)
                           smoothed_lat smoothed_lon
                           (speed telemetry) (direction telemetry)
                           (accuracy telemetry) (altitude telemetry) ts in
              let s := db_insert [location_record] s in
              let track_id := length (location_tracking s) in
              let s := write_telemetry (influx_data vid telemetry ts true) s in
              let location_data :=
                mkLocationData (latitude telemetry) (longitude telemetry)
                               (speed telemetry) (direction telemetry)
                               ts (vehicle_number vehicle) in
              let s := set_vehicle_location vid location_data default_ttl s in
              let s := publish_location_update vid location_data s in
              (Ok (mkIngestResponse "success" track_id ts), s)
          end
      end
  end.

Record BulkResponse := mkBulkResponse {
  bulk_status : string;
  ingested_count : nat;
  total_records : nat;
  errors : option (list string)
}.

(** The body of the [for] loop of [ingest_bulk_telemetry]: the state,
    the rows added to the session, [ingested_count] and [errors].  The
    [try]/[except Exception] around the body catches what the stores
    raise; with the stores available the body raises nothing. *)
Definition bulk_step (now : datetime)
    (acc : State * list LocationTracking * nat * list string)
    (telemetry : TelemetryData)
  : State * list LocationTracking * nat * list string :=
  let '(s, pending, count, errs) := acc in
  let vid := vehicle_id telemetry in
  match vehicles s !! vid with
  | None => (s, pending, count, errs ++ [not_found vid])
  | Some _ =>
      let ts := default now (timestamp telemetry) in
      let location_record :=
        mkLocation vid (longitude telemetry, latitude telemetry)
                   (latitude telemetry) (longitude telemetry)
                   (speed telemetry) (direction telemetry)
                   (accuracy telemetry) (altitude telemetry) ts in
      let s := write_telemetry (influx_data vid telemetry ts false) s in
      (s, pending ++ [location_record], S count, errs)
  end.

(** [ingest_bulk_telemetry] *)
Definition ingest_bulk_telemetry (now : datetime) (data : list TelemetryData)
    (s : State) : result http_error BulkResponse * State :=
  let '(s, pending, count, errs) :=
    fold_left (bulk_step now) data (s, [], 0%nat, []) in
  let s := db_insert pending s in
  (Ok (mkBulkResponse "success" count (length data)
         (match errs with [] => None | _ => Some errs end)), s).

(** The routes [POST /telemetry] and [POST /telemetry/bulk]: the body is
    validated against the model, then the handler runs. *)
Definition post_telemetry (now : datetime) (raw : RawTelemetry) (s : State)
  : result http_error IngestResponse * State :=
  match validate raw with
  | Err e => (Err (RequestValidationError e), s)
  | Ok telemetry => ingest_telemetry now telemetry s
  end.

Definition post_telemetry_bulk (now : datetime) (raws : list RawTelemetry)
    (s : State) : result http_error BulkResponse * State :=
  match validate_all raws with
  | Err e => (Err (RequestValidationError e), s)
  | Ok data => ingest_bulk_telemetry now data s
  end.

(** *** Vocabulary of the statements about ingestion *)

(** A field that is present with a value outside [[lo, hi]]. *)
Definition out_of_range (lo hi : Qc) (v : option Qc) : Prop :=
  exists a, v = Some a /\ (a < lo \/ hi < a).

(** A record that lacks a required field or whose position is out of
    range. *)
Definition invalid_position (raw : RawTelemetry) : Prop :=
  raw_vehicle_id raw = None \/
  raw_latitude raw = None \/
  raw_longitude raw = None \/
  out_of_range (Qc_of_Z (-90)) (Qc_of_Z 90) (raw_latitude raw) \/
  out_of_range (Qc_of_Z (-180)) (Qc_of_Z 180) (raw_longitude raw).

(** The vehicle of a record is in the table [vehicles]. *)
Definition registered (s : State) (t : TelemetryData) : bool :=
  match vehicles s !! vehicle_id t with
  | Some _ => true
  | None => false
  end.

(** The row and the point [ingest_bulk_telemetry] stores for a record. *)
Definition bulk_row (now : datetime) (t : TelemetryData) : LocationTracking :=
  mkLocation (vehicle_id t) (longitude t, latitude t)
             (latitude t) (longitude t) (speed t) (direction t)
             (accuracy t) (altitude t) (default now (timestamp t)).

Definition bulk_point (now : datetime) (t : TelemetryData) : InfluxPoint :=
  influx_data (vehicle_id t) t (default now (timestamp t)) false.

(** The specification's wording of bulk ingestion: the filters, the cache
    and the published messages end up as if every record had gone through
    [ingest_telemetry]. *)
Definition bulk_runs_pipeline (now : datetime) (data : list TelemetryData)
    (s : State) : Prop :=
  let s_bulk := snd (ingest_bulk_telemetry now data s) in
  let s_single :=
    fold_left (fun st t => snd (ingest_telemetry now t st)) data s in
  kf_storage s_bulk = kf_storage s_single /\
  redis_cache s_bulk = redis_cache s_single /\
  redis_published s_bulk = redis_published s_single.

(** A database that knows vehicle 7 only; nothing filtered, cached or
    published yet. *)
Definition fleet : State :=
  mkState {[ 7%Z := mkVehicle "MH-01-AB-1234" "truck" ]} [] [] ∅ ∅ [].

(** 2024-01-03T12:00:00Z *)
Definition noon : datetime := 1704283200%Z.

Definition telemetry1 : TelemetryData :=
  mkTelemetry 7 (Q2Qc 19.0760) (Q2Qc 72.8777)
              None None None None None None None.
Definition telemetry2 : TelemetryData :=
  mkTelemetry 7 (Q2Qc 19.0761) (Q2Qc 72.8778)
              None None None None None None None.
Definition raw_north_of_pole : RawTelemetry :=
  mkRaw (Some 7%Z) (Some (Qc_of_Z 91)) (Some (Q2Qc 72.8777))
        None None None None None None None.
Definition telemetry_unknown : TelemetryData :=
  mkTelemetry 8 (Q2Qc 19.0760) (Q2Qc 72.8777)
              None None None None None None None.

(** The state the loop of [ingest_bulk_telemetry] has reached once the
    given points are written. *)
Definition after_bulk (s : State) (points : list InfluxPoint) : State :=
  mkState (vehicles s) (location_tracking s) (influx s ++ points)
          (kf_storage s) (redis_cache s) (redis_published s).

(** *** [database/redis_manager.py]: reading the cache, names *)

(** [RedisManager.get_vehicle_location]: the dict under the key of the
    vehicle, read while the key lives. *)
Definition get_vehicle_location (vehicle_id : Z) (s : State)
  : option LocationData :=
  snd <$> redis_cache s !! vehicle_id.

(** A value of the cached dict, as [json.loads] returns it. *)
Inductive json :=
| JNumber (v : Qc)
| JString (v : string)
| JTimestamp (v : datetime)      (* the string [timestamp.isoformat()] *)
| JNull.

Definition json_number (v : option Qc) : json :=
  match v with
  | Some a => JNumber a
  | None => JNull
  end.

(** [location[key]] on the dict that [ingest_telemetry] builds: the keys
    are those of its literal; any other key raises [KeyError]. *)
Definition getitem (location : LocationData) (key : string) : option json :=
  if decide (key = "latitude") then Some (JNumber (ld_latitude location))
  else if decide (key = "longitude") then
    Some (JNumber (ld_longitude location))
  else if decide (key = "speed") then Some (json_number (ld_speed location))
  else if decide (key = "direction") then
    Some (json_number (ld_direction location))
  else if decide (key = "timestamp") then
    Some (JTimestamp (ld_timestamp location))
  else if decide (key = "vehicle_number") then
    Some (JString (ld_vehicle_number location))
  else None.

(** The names under which [RedisManager] stores and publishes:
    [f"vehicle:location:{vehicle_id}"], [f"vehicle:updates:{vehicle_id}"]
    and ["vehicle:updates:all"]. *)
Definition location_key (vehicle_id : Z) : string :=
  "vehicle:location:" +:+ pretty vehicle_id.

Definition channel_name (c : channel) : string :=
  match c with
  | VehicleUpdates vehicle_id => "vehicle:updates:" +:+ pretty vehicle_id
  | AllUpdates => "vehicle:updates:all"
  end.

(** *** Vocabulary of further statements about ingestion *)

(** The requests a client makes on the router, each with the time at
    which it is served. *)
Inductive request :=
| PostTelemetry (now : datetime) (raw : RawTelemetry)
| PostTelemetryBulk (now : datetime) (raws : list RawTelemetry).

(** The state after a request, whatever the answer was. *)
Definition handle (s : State) (rq : request) : State :=
  match rq with
  | PostTelemetry now raw => snd (post_telemetry now raw s)
  | PostTelemetryBulk now raws => snd (post_telemetry_bulk now raws s)
  end.

Definition serve (s : State) (rqs : list request) : State :=
  fold_left handle rqs s.

(** Every filter of [kf_storage] is one that [ingest_telemetry] made and
    fed. *)
Definition smoothing (s : State) : Prop :=
  map_Forall (fun _ kf => reachable default_noise default_noise kf)
             (kf_storage s).

(** The constraints the fields of [TelemetryData] declare. *)
Definition within (lo hi : Qc) (v : option Qc) : Prop :=
  forall a, v = Some a -> lo <= a /\ a <= hi.

Definition at_least (lo : Qc) (v : option Qc) : Prop :=
  forall a, v = Some a -> lo <= a.

(** The row, the point and the cached dict of a record that
    [ingest_telemetry] accepts, given the position the filter returned. *)
Definition live_row (now : datetime) (t : TelemetryData) (pos : vec)
  : LocationTracking :=
  mkLocation (vehicle_id t) (nth 1 pos 0, nth 0 pos 0)
             (nth 0 pos 0) (nth 1 pos 0) (speed t) (direction t)
             (accuracy t) (altitude t) (default now (timestamp t)).

Definition live_point (now : datetime) (t : TelemetryData) : InfluxPoint :=
  influx_data (vehicle_id t) t (default now (timestamp t)) true.

Definition live_location (now : datetime) (t : TelemetryData)
    (vehicle : Vehicle) : LocationData :=
  mkLocationData (latitude t) (longitude t) (speed t) (direction t)
                 (default now (timestamp t)) (vehicle_number vehicle).

(** The filter [ingest_telemetry] works on: the vehicle's own, or a new
    one. *)
Definition filter_of (s : State) (vid : Z) : KalmanFilter :=
  match kf_storage s !! vid with
  | Some kf => kf
  | None => init default_noise default_noise
  end.

(** A published message is about a vehicle: it went to the vehicle's own
    channel, or to the global one with the vehicle's id in its payload. *)
Definition about (vid : Z) (cm : channel * Message) : bool :=
  match fst cm with
  | VehicleUpdates v => bool_decide (v = vid)
  | AllUpdates => bool_decide (msg_vehicle_id (snd cm) = Some vid)
  end.

(** A row of [location_tracking] belongs to a vehicle. *)
Definition row_of (vid : Z) (row : LocationTracking) : bool :=
  bool_decide (loc_vehicle_id row = vid).

(** The payloads published on the channel of a vehicle, oldest first. *)
Definition updates_of (vid : Z) (published : list (channel * Message))
  : list LocationData :=
  omap (fun cm =>
          match fst cm with
          | VehicleUpdates v =>
              if bool_decide (v = vid) then Some (msg_body (snd cm)) else None
          | AllUpdates => None
          end) published.

(** The cache holds, for every vehicle, the last payload published on the
    vehicle's channel, with the default time to live. *)
Definition cache_mirrors_updates (s : State) : Prop :=
  forall vid,
    redis_cache s !! vid
    = (fun d => (default_ttl, d)) <$> last (updates_of vid (redis_published s)).

(** The error messages of a bulk answer: [errors] is [None] when the list
    is empty. *)
Definition error_list (b : BulkResponse) : list string :=
  default [] (errors b).

(** The body of [telemetry1] as it arrives. *)
Definition raw_telemetry1 : RawTelemetry :=
  mkRaw (Some 7%Z) (Some (Q2Qc 19.0760)) (Some (Q2Qc 72.8777))
        None None None None None None None.

End Ingestion.

(** ** [routing/optimizer.py] *)
Module Routing.
Import Ingestion.

Record TrafficContext := mkTrafficContext {
  message : string;
  vehicle_location : LocationData
}.

(** [get_traffic_context] *)
Definition get_traffic_context (vehicle_id : Z) (s : State)
  : result http_error TrafficContext :=
  match get_vehicle_location vehicle_id s with
  | None =>
      Err (HTTPException 404 "Vehicle location not found in cache")
  | Some location =>
      Ok (mkTrafficContext
            "Traffic context retrieval not fully implemented yet" location)
  end.

End Routing.

(** ** [prediction/service.py] *)
Module Prediction.
Import Ingestion.

Record ETARequest := mkETARequest {
  vehicle_id : Z;
  destination_lat : Qc;
  destination_lon : Qc
}.

(** The dict [prediction_data]. *)
Record PredictionData := mkPredictionData {
  distance_km : Qc;
  avg_speed_kmh : Qc;
  predicted_minutes : Z;
  estimated_arrival : datetime;
  confidence : Qc
}.

(** A row of the table [predictions]. *)
Record PredictionRow := mkPredictionRow {
  pr_vehicle_id : Z;
  pr_prediction_type : string;
  pr_predicted_value : PredictionData;
  pr_confidence_score : Qc;
  pr_valid_until : datetime
}.

(** What [predict_eta] reads and writes: the state of the ingestion
    service (for the cached locations), the Redis keys
    [prediction:eta:<id>] and the table [predictions]. *)
Record State := mkState {
  tracking : Ingestion.State;
  prediction_cache : gmap Z (nat * PredictionData);
  predictions : list PredictionRow
}.

(** [RedisManager.get_cached_prediction] and [cache_prediction], for the
    prediction type ["eta"]. *)
Definition get_cached_prediction (vehicle_id : Z) (s : State)
  : option PredictionData :=
  snd <$> prediction_cache s !! vehicle_id.

Definition cache_prediction (vehicle_id : Z) (value : PredictionData)
    (ttl : nat) (s : State) : State :=
  mkState (tracking s) (<[vehicle_id := (ttl, value)]> (prediction_cache s))
          (predictions s).

Definition db_add (row : PredictionRow) (s : State) : State :=
  mkState (tracking s) (prediction_cache s) (predictions s ++ [row]).

Section Estimate.
(** The distance, speed and arrival computed from the current position:
    trigonometry on floats, a random speed and the clock. *)
Variable estimate : Qc -> Qc -> ETARequest -> PredictionData.

(** [predict_eta] *)
Definition predict_eta (request : ETARequest) (s : State)
  : result http_error PredictionData * State :=
  match get_cached_prediction (vehicle_id request) s with
  | Some cached => (Ok cached, s)
  | None =>
      match get_vehicle_location (vehicle_id request) (tracking s) with
      | None => (Err (HTTPException 404 "Vehicle position unknown"), s)
      | Some curr_loc =>
          match getitem curr_loc "lat", getitem curr_loc "lon" with
          | Some (JNumber lat), Some (JNumber lon) =>
              let prediction_data := estimate lat lon request in
              let s :=
                cache_prediction (vehicle_id request) prediction_data 600 s in
              let s :=
                db_add (mkPredictionRow (vehicle_id request) "eta"
                          prediction_data (confidence prediction_data)
                          (estimated_arrival prediction_data)) s in
              (Ok prediction_data, s)
          | _, _ => (* KeyError *) (Err InternalServerError, s)
          end
      end
  end.

End Estimate.

End Prediction.

(** ** [api_gateway/main.py]: the WebSocket manager *)

Module Gateway.

(** A message to broadcast (the decoded JSON of a Redis message). *)
Definition message := Ingestion.Message.

(** A WebSocket connection: who it is, whether its peer is still there,
    and what has been sent on it. *)
Record WebSocket := mkWebSocket {
  ws_id : nat;
  ws_open : bool;
  ws_sent : list message
}.

Inductive ws_error := WebSocketDisconnect.

(** [websocket.send_json] *)
Definition send_json (ws : WebSocket) (m : message)
  : result ws_error WebSocket :=
  if ws_open ws then Ok (mkWebSocket (ws_id ws) true (ws_sent ws ++ [m]))
  else Err WebSocketDisconnect.

Record ConnectionManager := mkManager {
  active_connections : list WebSocket
}.

(** The [for] loop of [ConnectionManager.broadcast]. *)
Fixpoint broadcast_loop (conns : list WebSocket) (m : message)
  : list WebSocket :=
  match conns with
  | [] => []
  | connection :: rest =>
      match send_json connection m with
      | Ok connection' => connection' :: broadcast_loop rest m
      | Err _ => (* except Exception: pass *)
          connection :: broadcast_loop rest m
      end
  end.

(** [ConnectionManager.broadcast] *)
Definition broadcast (mgr : ConnectionManager) (m : message)
  : ConnectionManager :=
  mkManager (broadcast_loop (active_connections mgr) m).

(** *** Vocabulary of the statements about the broadcast *)

(** What a broadcast does to one connection. *)
Definition deliver (m : message) (c : WebSocket) : WebSocket :=
  if ws_open c then mkWebSocket (ws_id c) true (ws_sent c ++ [m]) else c.

(** The specification's wording: a subscriber whose delivery fails is
    gone from the set after the broadcast. *)
Definition drops_failed (mgr : ConnectionManager) (m : message) : Prop :=
  forall c, In c (active_connections mgr) -> ws_open c = false ->
            ~ In (ws_id c) (map ws_id (active_connections (broadcast mgr m))).

Definition update_message : message :=
  Ingestion.mkMessage (Some 7%Z)
    (Ingestion.mkLocationData (Q2Qc 19.0760) (Q2Qc 72.8777) None None
                              Ingestion.noon "MH-01-AB-1234").

Definition two_subscribers : ConnectionManager :=
  mkManager [mkWebSocket 1 false []; mkWebSocket 2 true []].

(** *** [connect], [disconnect] and runs of broadcasts *)

(** [ConnectionManager.connect]: the handshake is accepted and the
    connection appended. *)
Definition connect (mgr : ConnectionManager) (websocket : WebSocket)
  : ConnectionManager :=
  mkManager (active_connections mgr ++ [websocket]).

(** [websocket in self.active_connections]: connections are compared by
    identity. *)
Definition connected (mgr : ConnectionManager) (websocket : WebSocket)
  : bool :=
  existsb (fun c => ws_id c =? ws_id websocket)%nat (active_connections mgr).

(** [list.remove]: the first occurrence goes. *)
Fixpoint remove (websocket : WebSocket) (conns : list WebSocket)
  : list WebSocket :=
  match conns with
  | [] => []
  | c :: rest =>
      if (ws_id c =? ws_id websocket)%nat then rest
      else c :: remove websocket rest
  end.

(** [ConnectionManager.disconnect] *)
Definition disconnect (mgr : ConnectionManager) (websocket : WebSocket)
  : ConnectionManager :=
  if connected mgr websocket
  then mkManager (remove websocket (active_connections mgr))
  else mgr.

(** One broadcast after the other, as the loop of [websocket_tracking]
    issues them. *)
Definition broadcast_all (mgr : ConnectionManager) (ms : list message)
  : ConnectionManager :=
  fold_left broadcast ms mgr.

(** What a run of broadcasts does to one connection. *)
Definition deliver_all (ms : list message) (c : WebSocket) : WebSocket :=
  if ws_open c then mkWebSocket (ws_id c) true (ws_sent c ++ ms) else c.

(** The connections other than a given one. *)
Definition others (websocket : WebSocket) (conns : list WebSocket)
  : list WebSocket :=
  List.filter (fun c => negb (ws_id c =? ws_id websocket)%nat) conns.

End Gateway.

(** * Properties *)

Import LinAlg Kalman.
Local Open Scope Qc_scope.

(** ** Proof steps used throughout *)

(** Unfold the array operations down to the arithmetic on the entries. *)
Ltac mat_cbn := cbn -[Qcplus Qcmult Qcminus Qcdiv Qcopp Q2Qc Qcle Qclt].
Ltac mat_cbn_in H :=
  cbn -[Qcplus Qcmult Qcminus Qcdiv Qcopp Q2Qc Qcle Qclt] in H.

(** Two explicit arrays are equal when their entries are. *)
Ltac entrywise tac :=
  repeat match goal with
         | |- cons _ _ = cons _ _ => f_equal
         | |- nil = nil => reflexivity
         end; tac.

(** Equality of two closed rationals, by evaluation. *)
Ltac Qc_compute := apply Qc_is_canon; vm_compute; reflexivity.

(** ** Arrays of a known shape *)

Lemma shape_row4 (r : vec) :
  length r = 4%nat -> exists a b c d, r = [a; b; c; d].
Proof.
  destruct r as [|a [|b [|c [|d [|]]]]]; try discriminate. eauto.
Qed.

Lemma shape44_explicit M :
  shape 4 4 M ->
  exists p00 p01 p02 p03 p10 p11 p12 p13 p20 p21 p22 p23 p30 p31 p32 p33,
    M = mat44 p00 p01 p02 p03 p10 p11 p12 p13 p20 p21 p22 p23 p30 p31 p32 p33.
Proof.
  intros [Hlen Hrows].
  destruct M as [|r0 [|r1 [|r2 [|r3 [|]]]]]; try discriminate.
  repeat match goal with
         | Hf : Forall _ (_ :: _) |- _ => inversion Hf; clear Hf; subst
         end.
  repeat match goal with
         | Hr : length ?r = 4%nat |- _ =>
             apply shape_row4 in Hr; destruct Hr as (? & ? & ? & ? & ->)
         end.
  unfold mat44. repeat eexists.
Qed.

Ltac explicit44 HP :=
  apply shape44_explicit in HP
    as (?p00 & ?p01 & ?p02 & ?p03 & ?p10 & ?p11 & ?p12 & ?p13
        & ?p20 & ?p21 & ?p22 & ?p23 & ?p30 & ?p31 & ?p32 & ?p33 & ->).

Lemma mat44_shape p00 p01 p02 p03 p10 p11 p12 p13 p20 p21 p22 p23 p30 p31 p32 p33 :
  shape 4 4 (mat44 p00 p01 p02 p03 p10 p11 p12 p13 p20 p21 p22 p23 p30 p31 p32 p33).
Proof. split; [reflexivity | repeat constructor]. Qed.

Lemma inv_Some M Mi :
  inv M = Some Mi ->
  exists a b c d,
    M = [[a; b]; [c; d]] /\ det2 a b c d <> 0 /\
    Mi = [[d / det2 a b c d; - b / det2 a b c d];
          [- c / det2 a b c d; a / det2 a b c d]].
Proof.
  unfold inv.
  destruct M as [|[|a [|b [|]]] [|[|c [|d [|]]] [|]]]; try discriminate.
  cbv zeta. destruct (decide _) as [|Hn]; [discriminate|].
  intros [= <-]. exists a, b, c, d. auto.
Qed.

Lemma inv_None M : inv M = None <-> det M = 0.
Proof.
  unfold inv, det.
  destruct M as [|[|a [|b [|]]] [|[|c [|d [|]]] [|]]]; try tauto.
  cbv zeta. destruct (decide _); split; intros; congruence.
Qed.

Lemma Qcsquare_nonneg (a : Qc) : 0 <= a * a.
Proof.
  destruct (Qclt_le_dec a 0) as [Hneg | Hpos].
  - replace (a * a) with ((- a) * (- a)) by ring.
    assert (0 <= - a).
    { apply Qclt_le_weak in Hneg. apply Qcopp_le_compat in Hneg.
      replace (- 0) with 0 in Hneg by ring. exact Hneg. }
    now apply Qcmult_nonneg_nonneg.
  - now apply Qcmult_nonneg_nonneg.
Qed.

Lemma dotp_self_nonneg (u : vec) : 0 <= dotp u u.
Proof.
  induction u as [|a u IH]; unfold dotp; simpl.
  - apply Qcle_refl.
  - apply Qcplus_nonneg_nonneg; [apply Qcsquare_nonneg | exact IH].
Qed.

(** ** The algebra of the covariance update

    With [K S = P H^T], the posterior [(I - K H) P] that [update] assigns
    equals Joseph's form [(I - K H) P (I - K H)^T + K R K^T]; the identity
    is checked entry by entry on arrays of indeterminates. *)

Section Algebra.
Variables p00 p01 p02 p03 p10 p11 p12 p13 p20 p21 p22 p23 p30 p31 p32 p33 : Qc.
Variables k00 k01 k10 k11 k20 k21 k30 k31 : Qc.
Variables q r : Qc.
Variables v0 v1 v2 v3 : Qc.

Local Abbreviation Pm :=
  (mat44 p00 p01 p02 p03 p10 p11 p12 p13 p20 p21 p22 p23 p30 p31 p32 p33).
Local Abbreviation Km := (mat42 k00 k01 k10 k11 k20 k21 k30 k31).
Local Abbreviation vv := [v0; v1; v2; v3].

Lemma joseph_identity :
  joseph Pm Km r
  = madd (posterior Pm Km)
         (dot_mm (msub (dot_mm Km (S_of Pm r))
                       (dot_mm Pm (transpose H_matrix)))
                 (transpose Km)).
Proof.
  unfold joseph, posterior, IKH, S_of, mat44, mat42. mat_cbn.
  entrywise ltac:(ring).
Qed.

Lemma posterior_joseph :
  dot_mm Km (S_of Pm r) = dot_mm Pm (transpose H_matrix) ->
  posterior Pm Km = joseph Pm Km r.
Proof.
  intros HK. rewrite joseph_identity, HK.
  unfold posterior, IKH, mat44, mat42. mat_cbn. entrywise ltac:(ring).
Qed.

Lemma joseph_quad :
  quad (joseph Pm Km r) vv
  = quad Pm (dot_mv (transpose (IKH Km)) vv)
    + r * dotp (dot_mv (transpose Km) vv) (dot_mv (transpose Km) vv).
Proof.
  unfold joseph, IKH, mat44, mat42. mat_cbn. ring.
Qed.

Lemma prior_quad :
  quad (prior Pm q) vv
  = quad Pm (dot_mv (transpose (A_matrix 1)) vv) + q * dotp vv vv.
Proof. unfold prior, mat44. mat_cbn. ring. Qed.

End Algebra.

Lemma symmetric44 p00 p01 p02 p03 p10 p11 p12 p13 p20 p21 p22 p23 p30 p31 p32 p33 :
  symmetric (mat44 p00 p01 p02 p03 p10 p11 p12 p13 p20 p21 p22 p23 p30 p31 p32 p33)
  <-> (p10 = p01 /\ p20 = p02 /\ p30 = p03 /\ p21 = p12 /\ p31 = p13 /\ p32 = p23).
Proof.
  unfold symmetric, mat44. mat_cbn. split.
  - intros Heq. inversion Heq. repeat split; reflexivity.
  - intros (-> & -> & -> & -> & -> & ->). reflexivity.
Qed.

(** On a symmetric [P]. *)

Section Algebra2.
Variables p00 p01 p02 p03 p11 p12 p13 p22 p23 p33 : Qc.
Variables k00 k01 k10 k11 k20 k21 k30 k31 : Qc.
Variables q r : Qc.

Local Abbreviation Ps :=
  (mat44 p00 p01 p02 p03 p01 p11 p12 p13 p02 p12 p22 p23 p03 p13 p23 p33).
Local Abbreviation Km := (mat42 k00 k01 k10 k11 k20 k21 k30 k31).

Lemma joseph_symmetric : symmetric (joseph Ps Km r).
Proof.
  unfold symmetric, joseph, IKH, mat44, mat42. mat_cbn. entrywise ltac:(ring).
Qed.

Lemma prior_symmetric : symmetric (prior Ps q).
Proof.
  unfold symmetric, prior, mat44. mat_cbn. entrywise ltac:(ring).
Qed.
End Algebra2.

(** The gain solves [K S = P H^T]. *)
Lemma gain_equation a b c d b00 b01 b10 b11 b20 b21 b30 b31 Si :
  inv [[a; b]; [c; d]] = Some Si ->
  dot_mm (dot_mm (mat42 b00 b01 b10 b11 b20 b21 b30 b31) Si) [[a; b]; [c; d]]
  = mat42 b00 b01 b10 b11 b20 b21 b30 b31.
Proof.
  intros HS. apply inv_Some in HS as (a' & b' & c' & d' & [= <- <- <- <-] & Hd & ->).
  unfold mat42, det2 in *. mat_cbn. entrywise ltac:(field; exact Hd).
Qed.

Lemma S_of_explicit p00 p01 p02 p03 p10 p11 p12 p13 p20 p21 p22 p23 p30 p31 p32 p33 r :
  exists a b c d,
    S_of (mat44 p00 p01 p02 p03 p10 p11 p12 p13 p20 p21 p22 p23 p30 p31 p32 p33) r
    = [[a; b]; [c; d]].
Proof. unfold S_of, mat44. mat_cbn. repeat eexists. Qed.

Lemma PHt_explicit p00 p01 p02 p03 p10 p11 p12 p13 p20 p21 p22 p23 p30 p31 p32 p33 :
  exists b00 b01 b10 b11 b20 b21 b30 b31,
    dot_mm (mat44 p00 p01 p02 p03 p10 p11 p12 p13 p20 p21 p22 p23 p30 p31 p32 p33)
           (transpose H_matrix)
    = mat42 b00 b01 b10 b11 b20 b21 b30 b31.
Proof. unfold mat44, mat42. mat_cbn. repeat eexists. Qed.

Lemma K_of_explicit Pm Si :
  shape 4 4 Pm -> forall a b c d, inv [[a; b]; [c; d]] = Some Si ->
  exists k00 k01 k10 k11 k20 k21 k30 k31,
    K_of Pm Si = mat42 k00 k01 k10 k11 k20 k21 k30 k31.
Proof.
  intros HP a b c d HS.
  explicit44 HP.
  apply inv_Some in HS as (? & ? & ? & ? & _ & _ & ->).
  unfold K_of, mat44, mat42. mat_cbn. repeat eexists.
Qed.

Lemma gain_solves Pm r Si :
  shape 4 4 Pm -> inv (S_of Pm r) = Some Si ->
  dot_mm (K_of Pm Si) (S_of Pm r) = dot_mm Pm (transpose H_matrix).
Proof.
  intros HP HS.
  explicit44 HP.
  destruct (S_of_explicit p00 p01 p02 p03 p10 p11 p12 p13
                          p20 p21 p22 p23 p30 p31 p32 p33 r)
    as (a & b & c & d & ES).
  destruct (PHt_explicit p00 p01 p02 p03 p10 p11 p12 p13
                         p20 p21 p22 p23 p30 p31 p32 p33)
    as (b00 & b01 & b10 & b11 & b20 & b21 & b30 & b31 & EB).
  unfold K_of. rewrite ES in *. rewrite EB.
  now apply gain_equation.
Qed.

(** The covariance after a correction is Joseph's form, hence symmetric
    and positive semi-definite whenever [P] is. *)
Lemma posterior_is_joseph Pm r Si :
  shape 4 4 Pm -> inv (S_of Pm r) = Some Si ->
  posterior Pm (K_of Pm Si) = joseph Pm (K_of Pm Si) r.
Proof.
  intros HP HS. pose proof (gain_solves Pm r Si HP HS) as HG.
  destruct (inv_Some _ _ HS) as (a & b & c & d & ES & _ & _).
  rewrite ES in HS.
  destruct (K_of_explicit Pm Si HP a b c d HS)
    as (k00 & k01 & k10 & k11 & k20 & k21 & k30 & k31 & EK).
  rewrite EK in *.
  explicit44 HP.
  now apply posterior_joseph.
Qed.

Lemma posterior_symmetric Pm r Si :
  shape 4 4 Pm -> symmetric Pm -> inv (S_of Pm r) = Some Si ->
  symmetric (posterior Pm (K_of Pm Si)).
Proof.
  intros HP Hsym HS. rewrite (posterior_is_joseph Pm r Si HP HS).
  destruct (inv_Some _ _ HS) as (a & b & c & d & ES & _ & _).
  rewrite ES in HS.
  destruct (K_of_explicit Pm Si HP a b c d HS)
    as (k00 & k01 & k10 & k11 & k20 & k21 & k30 & k31 & ->).
  explicit44 HP.
  apply symmetric44 in Hsym as (-> & -> & -> & -> & -> & ->).
  apply joseph_symmetric.
Qed.

Lemma posterior_psd Pm r Si :
  shape 4 4 Pm -> psd Pm -> 0 <= r -> inv (S_of Pm r) = Some Si ->
  psd (posterior Pm (K_of Pm Si)).
Proof.
  intros HP Hpsd Hr HS. rewrite (posterior_is_joseph Pm r Si HP HS).
  destruct (inv_Some _ _ HS) as (a & b & c & d & ES & _ & _).
  rewrite ES in HS.
  destruct (K_of_explicit Pm Si HP a b c d HS)
    as (k00 & k01 & k10 & k11 & k20 & k21 & k30 & k31 & ->).
  explicit44 HP.
  intros v Hv. apply shape_row4 in Hv as (v0 & v1 & v2 & v3 & ->).
  rewrite joseph_quad.
  apply Qcplus_nonneg_nonneg.
  - apply Hpsd. reflexivity.
  - apply Qcmult_nonneg_nonneg; [exact Hr | apply dotp_self_nonneg].
Qed.

Lemma prior_shape Pm q : shape 4 4 Pm -> shape 4 4 (prior Pm q).
Proof. intros HP. explicit44 HP. apply mat44_shape. Qed.

Lemma posterior_shape Pm r Si :
  shape 4 4 Pm -> inv (S_of Pm r) = Some Si ->
  shape 4 4 (posterior Pm (K_of Pm Si)).
Proof.
  intros HP HS.
  destruct (inv_Some _ _ HS) as (a & b & c & d & ES & _ & _).
  rewrite ES in HS.
  destruct (K_of_explicit Pm Si HP a b c d HS)
    as (k00 & k01 & k10 & k11 & k20 & k21 & k30 & k31 & ->).
  explicit44 HP. apply mat44_shape.
Qed.

Lemma prior_symmetric_gen Pm q :
  shape 4 4 Pm -> symmetric Pm -> symmetric (prior Pm q).
Proof.
  intros HP Hsym. explicit44 HP.
  apply symmetric44 in Hsym as (-> & -> & -> & -> & -> & ->).
  apply prior_symmetric.
Qed.

Lemma prior_psd Pm q :
  shape 4 4 Pm -> psd Pm -> 0 <= q -> psd (prior Pm q).
Proof.
  intros HP Hpsd Hq. explicit44 HP.
  intros v Hv. apply shape_row4 in Hv as (v0 & v1 & v2 & v3 & ->).
  rewrite prior_quad.
  apply Qcplus_nonneg_nonneg.
  - apply Hpsd. reflexivity.
  - apply Qcmult_nonneg_nonneg; [exact Hq | apply dotp_self_nonneg].
Qed.

Lemma eye4_symmetric : symmetric (eye 4).
Proof. reflexivity. Qed.

Lemma eye4_psd : psd (eye 4).
Proof.
  intros v Hv. apply shape_row4 in Hv as (v0 & v1 & v2 & v3 & ->).
  replace (quad (eye 4) [v0; v1; v2; v3]) with (dotp [v0; v1; v2; v3] [v0; v1; v2; v3]).
  - apply dotp_self_nonneg.
  - unfold quad. mat_cbn. ring.
Qed.

Lemma psd_diagonal Pm :
  shape 4 4 Pm -> psd Pm -> forall i, (i < 4)%nat -> 0 <= entry Pm i i.
Proof.
  intros HP Hpsd i Hi. explicit44 HP.
  assert (Hunit : forall e, length e = 4%nat ->
            0 <= quad (mat44 p00 p01 p02 p03 p10 p11 p12 p13
                             p20 p21 p22 p23 p30 p31 p32 p33) e)
    by exact Hpsd.
  destruct i as [|[|[|[|i]]]]; [| | | | lia].
  - specialize (Hunit [1; 0; 0; 0] eq_refl).
    replace (quad _ _) with p00 in Hunit; [exact Hunit|].
    unfold quad, mat44. mat_cbn. ring.
  - specialize (Hunit [0; 1; 0; 0] eq_refl).
    replace (quad _ _) with p11 in Hunit; [exact Hunit|].
    unfold quad, mat44. mat_cbn. ring.
  - specialize (Hunit [0; 0; 1; 0] eq_refl).
    replace (quad _ _) with p22 in Hunit; [exact Hunit|].
    unfold quad, mat44. mat_cbn. ring.
  - specialize (Hunit [0; 0; 0; 1] eq_refl).
    replace (quad _ _) with p33 in Hunit; [exact Hunit|].
    unfold quad, mat44. mat_cbn. ring.
Qed.

(** ** What every state of a constructed filter satisfies *)

Section Invariants.
Variables q r : Qc.

Lemma init_configured : configured q r (init q r).
Proof. repeat split. Qed.

Lemma init_well_shaped : well_shaped (init q r).
Proof. split; [split; [reflexivity | repeat constructor] | reflexivity]. Qed.

Lemma predict_configured kf :
  configured q r kf -> configured q r (snd (predict kf)).
Proof. intros Hc. exact Hc. Qed.

Lemma update_configured kf m :
  configured q r kf -> configured q r (snd (update kf m)).
Proof.
  intros Hc. unfold update.
  destruct (negb (initialized kf)); [exact Hc|].
  destruct (inv _); exact Hc.
Qed.

Lemma predict_P kf :
  configured q r kf -> P (snd (predict kf)) = prior (P kf) q.
Proof.
  intros (HA & _ & HQ & _). unfold predict, prior. simpl. now rewrite HA, HQ.
Qed.

Lemma predict_x kf :
  configured q r kf -> x (snd (predict kf)) = dot_mv (A_matrix 1) (x kf).
Proof. intros (HA & _). unfold predict. simpl. now rewrite HA. Qed.

Lemma innovation_cov_S_of kf :
  configured q r kf -> innovation_cov kf = S_of (P kf) r.
Proof.
  intros (_ & HH & _ & HR). unfold innovation_cov, S_of. now rewrite HH, HR.
Qed.

Lemma update_first kf m :
  initialized kf = false ->
  update kf m
  = let x1 := vzip (fun _ b => b) (firstn 2 (x kf)) (as_array m)
              ++ skipn 2 (x kf) in
    let x2 := firstn 2 x1 ++ map (fun _ => 0) (skipn 2 x1) in
    (Ok (firstn 2 x2),
     mkKF (dt kf) (A kf) (H kf) (Q kf) (R kf) (P kf) x2 true).
Proof. intros Hi. unfold update. rewrite Hi. reflexivity. Qed.

Lemma update_raises kf m :
  initialized kf = true -> inv (innovation_cov kf) = None ->
  update kf m = (Err LinAlgError, kf).
Proof.
  intros Hi HS. unfold update, innovation_cov in *. rewrite Hi. simpl.
  now rewrite HS.
Qed.

Lemma update_corrects kf m Si :
  initialized kf = true -> inv (innovation_cov kf) = Some Si ->
  update kf m
  = let K := dot_mm (dot_mm (P kf) (transpose (H kf))) Si in
    let x' := vadd (x kf)
                (dot_mv K (vsub (as_array m) (dot_mv (H kf) (x kf)))) in
    (Ok (firstn 2 x'),
     mkKF (dt kf) (A kf) (H kf) (Q kf) (R kf)
          (dot_mm (msub (eye 4) (dot_mm K (H kf))) (P kf)) x' true).
Proof.
  intros Hi HS. unfold update, innovation_cov in *. rewrite Hi. simpl.
  rewrite HS. unfold set_P, set_x. simpl. now rewrite Hi.
Qed.

Lemma update_P kf m Si :
  configured q r kf -> initialized kf = true ->
  inv (S_of (P kf) r) = Some Si ->
  P (snd (update kf m)) = posterior (P kf) (K_of (P kf) Si).
Proof.
  intros Hc Hi HS. rewrite <- (innovation_cov_S_of kf Hc) in HS.
  rewrite (update_corrects kf m Si Hi HS). simpl.
  destruct Hc as (_ & -> & _). reflexivity.
Qed.

Lemma predict_well_shaped kf :
  configured q r kf -> well_shaped kf -> well_shaped (snd (predict kf)).
Proof.
  intros Hc [HP Hx]. split.
  - rewrite (predict_P kf Hc). now apply prior_shape.
  - rewrite (predict_x kf Hc). unfold dot_mv. now rewrite length_map.
Qed.

Lemma update_well_shaped kf m :
  configured q r kf -> well_shaped kf -> well_shaped (snd (update kf m)).
Proof.
  intros Hc [HP Hx]. destruct (initialized kf) eqn:Hi.
  - pose proof (innovation_cov_S_of kf Hc) as ES.
    destruct (inv (innovation_cov kf)) as [Si|] eqn:HS.
    + split.
      * rewrite ES in HS. rewrite (update_P kf m Si Hc Hi HS).
        now apply (posterior_shape _ r).
      * rewrite (update_corrects kf m Si Hi HS). simpl.
        destruct Hc as (_ & HH & _). rewrite HH.
        rewrite ES in HS.
        destruct (inv_Some _ _ HS) as (a & b & c & d & _ & _ & ->).
        apply shape_row4 in Hx as (x0 & x1 & x2 & x3 & ->).
        explicit44 HP. reflexivity.
    + rewrite (update_raises kf m Hi HS). now split.
  - rewrite (update_first kf m Hi). simpl. split; [exact HP|].
    apply shape_row4 in Hx as (x0 & x1 & x2 & x3 & ->). reflexivity.
Qed.

Lemma reachable_configured kf : reachable q r kf -> configured q r kf.
Proof.
  induction 1 as [|kf c _ IH]; [apply init_configured|].
  destruct c; [now apply predict_configured | now apply update_configured].
Qed.

Lemma reachable_well_shaped kf : reachable q r kf -> well_shaped kf.
Proof.
  induction 1 as [|kf c Hr IH]; [apply init_well_shaped|].
  pose proof (reachable_configured kf Hr) as Hc.
  destruct c; [now apply predict_well_shaped | now apply update_well_shaped].
Qed.

Lemma run_reachable kf calls :
  reachable q r kf -> reachable q r (run kf calls).
Proof.
  revert kf. induction calls as [|c calls IH]; intros kf Hr; [exact Hr|].
  apply IH. now constructor.
Qed.

Hypothesis Hq : 0 <= q.
Hypothesis Hr : 0 <= r.

Lemma step_covariance kf c :
  configured q r kf -> well_shaped kf ->
  symmetric (P kf) /\ psd (P kf) ->
  symmetric (P (step kf c)) /\ psd (P (step kf c)).
Proof.
  intros Hc [HP Hx] [Hsym Hpsd]. destruct c as [|m]; unfold step.
  - rewrite (predict_P kf Hc). split.
    + now apply prior_symmetric_gen.
    + now apply prior_psd.
  - destruct (initialized kf) eqn:Hi.
    + pose proof (innovation_cov_S_of kf Hc) as ES.
      destruct (inv (innovation_cov kf)) as [Si|] eqn:HS.
      * rewrite ES in HS. rewrite (update_P kf m Si Hc Hi HS). split.
        -- now apply (posterior_symmetric _ r).
        -- now apply (posterior_psd _ r).
      * rewrite (update_raises kf m Hi HS). now split.
    + rewrite (update_first kf m Hi). now split.
Qed.

Lemma reachable_covariance kf :
  reachable q r kf -> symmetric (P kf) /\ psd (P kf).
Proof.
  induction 1 as [|kf c Hreach IH].
  - split; [apply eye4_symmetric | apply eye4_psd].
  - apply step_covariance; auto using reachable_configured, reachable_well_shaped.
Qed.

End Invariants.

Lemma process_unfold kf m : process kf m = update (snd (predict kf)) m.
Proof. reflexivity. Qed.

(** ** The filter: first measurement, degenerate gain, covariance *)

(** C1.  On a filter that has absorbed no measurement yet (constructed
    with any noise magnitudes, after any calls that left [initialized]
    false), [process(measurement)] returns exactly the measured
    [(lat, lon)], the state vector becomes [lat, lon, 0, 0] (zero
    velocity), the filter is initialized from then on, and the covariance
    is the predicted one: no gain is computed and no correction applied. *)
Theorem first_process_returns_measurement
    (q r : Qc) (kf : KalmanFilter) (m : measurement) :
  reachable q r kf -> initialized kf = false ->
  exists kf',
    process kf m = (Ok [fst m; snd m], kf') /\
    x kf' = [fst m; snd m; 0; 0] /\
    initialized kf' = true /\
    P kf' = P (snd (predict kf)).
Proof.
  intros Hreach Hi.
  pose proof (reachable_configured q r kf Hreach) as Hc.
  destruct (reachable_well_shaped q r kf Hreach) as [_ Hx].
  apply shape_row4 in Hx as (x0 & x1 & x2 & x3 & Ex).
  rewrite process_unfold, update_first by exact Hi.
  rewrite (predict_x q r kf Hc), Ex. cbv zeta.
  eexists. split; [reflexivity|]. simpl. auto.
Qed.

(** C1 at a new default filter and the position of Mumbai. *)
Lemma first_process_witness :
  exists kf',
    process (init default_noise default_noise) (Q2Qc 19.0760, Q2Qc 72.8777)
    = (Ok [Q2Qc 19.0760; Q2Qc 72.8777], kf') /\
    x kf' = [Q2Qc 19.0760; Q2Qc 72.8777; 0; 0] /\
    initialized kf' = true /\
    P kf' = P (snd (predict (init default_noise default_noise))).
Proof.
  apply (first_process_returns_measurement default_noise default_noise
           (init default_noise default_noise) (Q2Qc 19.0760, Q2Qc 72.8777)).
  - constructor.
  - reflexivity.
Defined.

(** C2, as the specification words it, fails: on [degenerate_filter] the
    innovation covariance is the zero matrix, and [update] does not hand
    the caller a success that leaves the state at its prediction. *)
Lemma singular_update_not_acknowledged :
  initialized degenerate_filter = true /\
  det (innovation_cov degenerate_filter) = 0 /\
  ~ fails_closed degenerate_filter (1, 1).
Proof.
  assert (Hi : initialized degenerate_filter = true) by (vm_compute; reflexivity).
  assert (Hd : det (innovation_cov degenerate_filter) = 0) by Qc_compute.
  split; [exact Hi|]. split; [exact Hd|].
  intros Hclaim. destruct (Hclaim Hi Hd) as [pos Hpos].
  apply (f_equal fst) in Hpos. vm_compute in Hpos. discriminate Hpos.
Qed.

(** ** The filter in binary64 *)

Section Binary64Theory.
Import PrimFloat Binary64.
Local Open Scope float_scope.
Set Warnings "-inexact-float".

(** Conjunctions of closed facts, each settled by evaluation. *)
Ltac conjuncts := repeat match goal with |- _ /\ _ => split end.
Ltac evaluated := conjuncts; vm_compute; reflexivity.

Lemma binary64_update_raises kf m :
  initialized kf = true -> inv (innovation_cov kf) = None ->
  update kf m = (Err LinAlgError, kf).
Proof.
  intros Hi HS. unfold update. rewrite Hi. cbn [negb].
  unfold innovation_cov in HS. now rewrite HS.
Qed.

Lemma binary64_update_corrects kf m Si :
  initialized kf = true -> inv (innovation_cov kf) = Some Si ->
  let K := dot_mm (dot_mm (P kf) (transpose (H kf))) Si in
  let x' :=
    vadd (x kf) (dot_mv K (vsub (as_array m) (dot_mv (H kf) (x kf)))) in
  let P' := dot_mm (msub (eye 4) (dot_mm K (H kf))) (P kf) in
  update kf m = (Ok (firstn 2 x'), set_P (set_x kf x') P').
Proof.
  intros Hi HS. unfold update. rewrite Hi. cbn [negb].
  unfold innovation_cov in HS. rewrite HS. reflexivity.
Qed.

Lemma binary64_process_unfold kf m :
  process kf m = update (snd (predict kf)) m.
Proof. reflexivity. Qed.

(** C2, amended.  [update] has no test for degeneracy.  On an initialized
    filter, when [np.linalg.inv] raises on the innovation covariance [S]
    (a pivot of [S] is exactly zero), [update] raises [LinAlgError] before
    it assigns [x] or [P]: the state stays at its prediction, and the
    caller ([process]) gets the exception, not a success.  When
    [np.linalg.inv] returns, the correction is applied with what it
    returned: [x] becomes [x + K (z - H x)] and [P] becomes
    [(I - K H) P] for [K = P H^T S^-1], and [x[:2]] is returned.  So
    [KalmanFilter(0, 0)], where [S] is the zero matrix at the fourth
    [process([1, 1])], raises there; and [KalmanFilter(0, 1e-320)], where
    [S] is [1e-320] times the identity, returns [[nan, nan]] there and is
    left with NaN in every component of [x] and [P]. *)
Theorem update_has_no_degeneracy_guard :
  (forall kf m,
     initialized kf = true -> inv (innovation_cov kf) = None ->
     update kf m = (Err LinAlgError, kf) /\
     forall kf0, kf = snd (predict kf0) ->
       process kf0 m = (Err LinAlgError, snd (predict kf0))) /\
  (forall kf m Si,
     initialized kf = true -> inv (innovation_cov kf) = Some Si ->
     let K := dot_mm (dot_mm (P kf) (transpose (H kf))) Si in
     let x' :=
       vadd (x kf) (dot_mv K (vsub (as_array m) (dot_mv (H kf) (x kf)))) in
     let P' := dot_mm (msub (eye 4) (dot_mm K (H kf))) (P kf) in
     update kf m = (Ok (firstn 2 x'), set_P (set_x kf x') P')) /\
  (initialized degenerate_filter = true /\
   innovation_cov degenerate_filter = [[0; 0]; [0; 0]] /\
   inv (innovation_cov degenerate_filter) = None /\
   update degenerate_filter (1, 1) = (Err LinAlgError, degenerate_filter) /\
   process (run (init 0 0) (thrice (1, 1))) (1, 1)
   = (Err LinAlgError, degenerate_filter)) /\
  (initialized near_singular_filter = true /\
   innovation_cov near_singular_filter = [[1e-320; 0]; [0; 1e-320]] /\
   (exists Si, inv (innovation_cov near_singular_filter) = Some Si) /\
   fst (process (run (init 0 1e-320) (thrice (1, 1))) (1, 1))
   = Ok [nan; nan] /\
   fst (update near_singular_filter (1, 1)) = Ok [nan; nan] /\
   x (snd (update near_singular_filter (1, 1))) = [nan; nan; nan; nan] /\
   P (snd (update near_singular_filter (1, 1))) = repeat (repeat nan 4) 4).
Proof.
  split; [|split; [|split]].
  - intros kf m Hi HS.
    pose proof (binary64_update_raises kf m Hi HS) as Hup.
    split; [exact Hup|].
    intros kf0 Ekf. rewrite binary64_process_unfold, <- Ekf. exact Hup.
  - intros kf m Si Hi HS. exact (binary64_update_corrects kf m Si Hi HS).
  - evaluated.
  - conjuncts; try (vm_compute; reflexivity).
    eexists. vm_compute. reflexivity.
Qed.

(** C7, as the specification words it, fails on the code.  After two
    calls of [process] on a default filter, [P[0][2]] and [P[2][0]]
    differ in their last digits: [P] is not symmetric.  On
    [KalmanFilter(0, 0)], after three predictions, two updates and three
    predictions, one more update returns a position and leaves [P[2][2]]
    below zero.  And a filter constructed with a negative process noise
    has a negative diagonal after its first prediction. *)
Lemma covariance_not_symmetric_psd :
  (let P2 := P (run (init default_noise default_noise) two_fixes) in
   entry P2 0 2 = 0.00039988009592362915 /\
   entry P2 2 0 = 0.00039988009592351048 /\
   ~ symmetric P2) /\
  (update (run (init 0 0) coasting) (1, 1) = (Ok [1; 1], rounded_below_zero) /\
   entry (P rounded_below_zero) 2 2 = -1.3877787807814457e-17 /\
   ~ nonneg_diagonal (P rounded_below_zero)) /\
  (entry (P negative_noise_filter) 0 0 = -3 /\
   ~ nonneg_diagonal (P negative_noise_filter)).
Proof.
  cbv zeta. conjuncts; try (vm_compute; reflexivity).
  - intros Hs. specialize (Hs 0%nat 2%nat). vm_compute in Hs. discriminate Hs.
  - intros Hn.
    assert (Hl : (2 < length (P rounded_below_zero))%nat)
      by (vm_compute; lia).
    specialize (Hn 2%nat Hl). vm_compute in Hn. discriminate Hn.
  - intros Hn.
    assert (Hl : (0 < length (P negative_noise_filter))%nat)
      by (vm_compute; lia).
    specialize (Hn 0%nat Hl). vm_compute in Hn. discriminate Hn.
Qed.

(** C7, amended.  For a filter constructed with noise magnitudes that are
    not negative, after every finite sequence of [predict()] and
    [update(measurement)] calls the covariance [P] is symmetric and
    positive semi-definite, with a diagonal that is not negative, when
    the sums and products of the two methods are taken exactly (module
    [Kalman]).  The code takes them in binary64: [predict] assigns [P]
    the rounded [A P A^T + Q], and [update] assigns it the rounded
    [(I - K H) P] when it corrects and leaves it as it is otherwise (on
    the first measurement, and when the inversion raises).  Nothing makes
    [P] symmetric again or keeps its diagonal from going negative, and
    the constructor takes any noise.  As computed, [P[0][2]] and
    [P[2][0]] differ after two calls of [process] on a default filter,
    [P[2][2]] is [-1.3877787807814457e-17] on [KalmanFilter(0, 0)] after
    three predictions, two updates, three predictions and an update, and
    [P[0][0]] is [-3] on [KalmanFilter(process_noise=-5)] after one
    prediction. *)
Theorem covariance_psd_exact_not_binary64 :
  (forall (q r : Qc) (calls : list Kalman.call),
     (0 <= q)%Qc -> (0 <= r)%Qc ->
     let kf := Kalman.run (Kalman.init q r) calls in
     LinAlg.symmetric (Kalman.P kf) /\ LinAlg.psd (Kalman.P kf) /\
     forall i, (i < 4)%nat -> (0 <= LinAlg.entry (Kalman.P kf) i i)%Qc) /\
  (forall kf,
     P (snd (predict kf))
     = madd (dot_mm (dot_mm (A kf) (P kf)) (transpose (A kf))) (Q kf)) /\
  (forall kf m,
     (initialized kf = false -> P (snd (update kf m)) = P kf) /\
     (initialized kf = true -> inv (innovation_cov kf) = None ->
        P (snd (update kf m)) = P kf) /\
     (forall Si,
        initialized kf = true -> inv (innovation_cov kf) = Some Si ->
        let K := dot_mm (dot_mm (P kf) (transpose (H kf))) Si in
        P (snd (update kf m))
        = dot_mm (msub (eye 4) (dot_mm K (H kf))) (P kf))) /\
  (forall q r, Q (init q r) = mscale (eye 4) q /\
               R (init q r) = mscale (eye 2) r) /\
  (let P2 := P (run (init default_noise default_noise) two_fixes) in
   entry P2 0 2 = 0.00039988009592362915 /\
   entry P2 2 0 = 0.00039988009592351048) /\
  entry (P rounded_below_zero) 2 2 = -1.3877787807814457e-17 /\
  entry (P negative_noise_filter) 0 0 = -3.
Proof.
  split; [|split; [|split; [|split; [|split]]]].
  - intros q r calls Hq Hr kf.
    assert (Hreach : reachable q r kf) by (apply run_reachable; constructor).
    destruct (reachable_covariance q r Hq Hr kf Hreach) as [Hsym Hpsd].
    destruct (reachable_well_shaped q r kf Hreach) as [HP _].
    repeat split; try assumption. now apply psd_diagonal.
  - reflexivity.
  - intros kf m. split; [|split].
    + intros Hi. unfold update. now rewrite Hi.
    + intros Hi HS. now rewrite (binary64_update_raises kf m Hi HS).
    + intros Si Hi HS. now rewrite (binary64_update_corrects kf m Si Hi HS).
  - intros q r. split; reflexivity.
  - cbv zeta. evaluated.
  - evaluated.
Qed.

End Binary64Theory.

(** ** The filter: what the calls do to flag, covariance and state *)

Lemma step_initialized kf c :
  initialized (step kf c) = initialized kf || is_update c.
Proof.
  destruct c as [|m]; simpl; [now rewrite orb_false_r|].
  unfold update. destruct (initialized kf) eqn:Hi; simpl; [|reflexivity].
  destruct (inv _); simpl; exact Hi.
Qed.

(** X1.  After any sequence of [predict] and [update] calls a filter is
    initialized exactly when it was so before or the sequence holds an
    [update]: [predict] never sets the flag, the first [update] sets it, and
    nothing clears it, not even an [update] that raises. *)
Theorem initialized_iff_updated (kf : KalmanFilter) (calls : list call) :
  initialized (run kf calls) = initialized kf || existsb is_update calls.
Proof.
  revert kf. induction calls as [|c calls IH]; intros kf.
  - simpl. now rewrite orb_false_r.
  - change (run kf (c :: calls)) with (run (step kf c) calls).
    cbn [existsb]. now rewrite IH, step_initialized, orb_assoc.
Qed.

Lemma step_same_but_x kf1 kf2 c1 c2 :
  same_kind c1 c2 -> same_but_x kf1 kf2 ->
  same_but_x (step kf1 c1) (step kf2 c2).
Proof.
  destruct kf1 as [d1 A1 H1 Q1 R1 P1 x1 i1], kf2 as [d2 A2 H2 Q2 R2 P2 x2 i2].
  intros Hk (HA & HH & HQ & HR & HP & Hi). simpl in *. subst.
  destruct c1 as [|m1], c2 as [|m2]; try discriminate Hk.
  - repeat split.
  - unfold step, update. simpl. destruct i2; simpl.
    + destruct (inv _); repeat split.
    + repeat split.
Qed.

Lemma run_same_but_x calls1 calls2 :
  Forall2 same_kind calls1 calls2 ->
  forall kf1 kf2, same_but_x kf1 kf2 ->
                  same_but_x (run kf1 calls1) (run kf2 calls2).
Proof.
  induction 1 as [|c1 c2 l1 l2 Hc _ IH]; intros kf1 kf2 H0; [exact H0|].
  change (same_but_x (run (step kf1 c1) l1) (run (step kf2 c2) l2)).
  apply IH. now apply step_same_but_x.
Qed.

(** X2.  The covariance [P] and the flag [initialized] depend on which
    methods were called, not on what was measured: two runs from the same
    filter whose calls are of the same kind, one by one, end with the same
    [P] and the same flag, whatever measurements the [update]s carried. *)
Theorem covariance_ignores_measurements
    (kf : KalmanFilter) (calls1 calls2 : list call) :
  Forall2 same_kind calls1 calls2 ->
  P (run kf calls1) = P (run kf calls2) /\
  initialized (run kf calls1) = initialized (run kf calls2).
Proof.
  intros Hsame.
  destruct (run_same_but_x calls1 calls2 Hsame kf kf)
    as (_ & _ & _ & _ & HP & Hi); [repeat split | auto].
Qed.

(** X2 at two runs of a default filter that differ in their
    measurements. *)
Lemma covariance_ignores_measurements_witness :
  let kf := init default_noise default_noise in
  let calls1 := two_fixes in
  let calls2 := [Predict; Update (Q2Qc 12.9716, Q2Qc 77.5946);
                 Predict; Update (Q2Qc 28.6139, Q2Qc 77.2090)] in
  P (run kf calls1) = P (run kf calls2) /\
  initialized (run kf calls1) = initialized (run kf calls2).
Proof.
  apply (covariance_ignores_measurements (init default_noise default_noise)).
  repeat constructor.
Defined.

(** *** Latitude and longitude do not mix *)

Ltac checker_cases :=
  let i := fresh "i" in let j := fresh "j" in
  let Hi := fresh "Hi" in let Hj := fresh "Hj" in let Ho := fresh "Ho" in
  intros i j Hi Hj Ho;
  destruct i as [|[|[|[|i]]]]; try lia;
  destruct j as [|[|[|[|j]]]]; try lia;
  try discriminate Ho.

Lemma checkerboard44 p00 p01 p02 p03 p10 p11 p12 p13 p20 p21 p22 p23 p30 p31 p32 p33 :
  checkerboard (mat44 p00 p01 p02 p03 p10 p11 p12 p13 p20 p21 p22 p23 p30 p31 p32 p33)
  -> mat44 p00 p01 p02 p03 p10 p11 p12 p13 p20 p21 p22 p23 p30 p31 p32 p33
     = chk44 p00 p02 p11 p13 p20 p22 p31 p33.
Proof.
  intros Hc.
  pose proof (Hc 0%nat 1%nat) as H01. pose proof (Hc 0%nat 3%nat) as H03.
  pose proof (Hc 1%nat 0%nat) as H10. pose proof (Hc 1%nat 2%nat) as H12.
  pose proof (Hc 2%nat 1%nat) as H21. pose proof (Hc 2%nat 3%nat) as H23.
  pose proof (Hc 3%nat 0%nat) as H30. pose proof (Hc 3%nat 2%nat) as H32.
  unfold entry, mat44 in *. simpl in *.
  rewrite H01, H03, H10, H12, H21, H23, H30, H32 by (lia || reflexivity).
  reflexivity.
Qed.

Lemma eye4_checkerboard : checkerboard (eye 4).
Proof. checker_cases; reflexivity. Qed.

Lemma prior_checkerboard Pm q :
  shape 4 4 Pm -> checkerboard Pm -> checkerboard (prior Pm q).
Proof.
  intros HP Hc. explicit44 HP. rewrite (checkerboard44 _ _ _ _ _ _ _ _ _ _ _ _ _ _ _ _ Hc).
  checker_cases; unfold entry, prior, chk44, mat44; mat_cbn; ring.
Qed.

Lemma S_of_checker p00 p02 p11 p13 p20 p22 p31 p33 r :
  S_of (chk44 p00 p02 p11 p13 p20 p22 p31 p33) r
  = [[p00 + r; 0]; [0; p11 + r]].
Proof. unfold S_of, chk44, mat44. mat_cbn. entrywise ltac:(ring). Qed.

Lemma inv_diagonal a d Si :
  inv [[a; 0]; [0; d]] = Some Si ->
  a <> 0 /\ d <> 0 /\ Si = [[/ a; 0]; [0; / d]].
Proof.
  intros HS. apply inv_Some in HS as (a' & b' & c' & d' & [= <- <- <- <-] & Hd & ->).
  unfold det2 in *.
  assert (Ha : a <> 0) by (intros ->; apply Hd; ring).
  assert (Hdd : d <> 0) by (intros ->; apply Hd; ring).
  repeat split; try assumption.
  entrywise ltac:(field; auto).
Qed.

Lemma K_of_checker p00 p02 p11 p13 p20 p22 p31 p33 a d :
  K_of (chk44 p00 p02 p11 p13 p20 p22 p31 p33) [[/ a; 0]; [0; / d]]
  = mat42 (p00 / a) 0 0 (p11 / d) (p20 / a) 0 0 (p31 / d).
Proof. unfold K_of, chk44, mat44, mat42, Qcdiv. mat_cbn. entrywise ltac:(ring). Qed.

Lemma posterior_checker p00 p02 p11 p13 p20 p22 p31 p33 k00 k11 k20 k31 :
  checkerboard (posterior (chk44 p00 p02 p11 p13 p20 p22 p31 p33)
                          (mat42 k00 0 0 k11 k20 0 0 k31)).
Proof.
  checker_cases; unfold entry, posterior, IKH, chk44, mat44, mat42; mat_cbn; ring.
Qed.

Lemma posterior_checkerboard Pm r Si :
  shape 4 4 Pm -> checkerboard Pm -> inv (S_of Pm r) = Some Si ->
  checkerboard (posterior Pm (K_of Pm Si)).
Proof.
  intros HP Hc HS. explicit44 HP.
  rewrite (checkerboard44 _ _ _ _ _ _ _ _ _ _ _ _ _ _ _ _ Hc) in *.
  rewrite S_of_checker in HS.
  apply inv_diagonal in HS as (_ & _ & ->).
  rewrite K_of_checker. apply posterior_checker.
Qed.

Lemma S_of_invertible Pm r :
  shape 4 4 Pm -> psd Pm -> checkerboard Pm -> 0 < r -> det (S_of Pm r) <> 0.
Proof.
  intros HP Hpsd Hchk Hr.
  pose proof (psd_diagonal _ HP Hpsd 0%nat ltac:(lia)) as H0.
  pose proof (psd_diagonal _ HP Hpsd 1%nat ltac:(lia)) as H1.
  explicit44 HP. rewrite (checkerboard44 _ _ _ _ _ _ _ _ _ _ _ _ _ _ _ _ Hchk) in *.
  rewrite S_of_checker. unfold det, det2. unfold entry, chk44, mat44 in H0, H1.
  simpl in H0, H1.
  replace ((p00 + r) * (p11 + r) - 0 * 0) with ((p00 + r) * (p11 + r)) by ring.
  apply not_eq_sym, Qclt_not_eq.
  apply Qcmult_pos_pos; now apply Qcplus_nonneg_pos.
Qed.

Section Checkerboard.
Variables q r : Qc.

Lemma reachable_checkerboard kf : reachable q r kf -> checkerboard (P kf).
Proof.
  induction 1 as [|kf c Hreach IH]; [apply eye4_checkerboard|].
  pose proof (reachable_configured q r kf Hreach) as Hc.
  destruct (reachable_well_shaped q r kf Hreach) as [HP _].
  destruct c as [|m]; unfold step.
  - rewrite (predict_P q r kf Hc). now apply prior_checkerboard.
  - destruct (initialized kf) eqn:Hi.
    + pose proof (innovation_cov_S_of q r kf Hc) as ES.
      destruct (inv (innovation_cov kf)) as [Si|] eqn:HS.
      * rewrite ES in HS. rewrite (update_P q r kf m Si Hc Hi HS).
        now apply (posterior_checkerboard _ r).
      * now rewrite (update_raises kf m Hi HS).
    + now rewrite (update_first kf m Hi).
Qed.

Hypothesis Hq : 0 <= q.
Hypothesis Hr : 0 < r.

Lemma innovation_invertible kf :
  reachable q r kf -> det (innovation_cov kf) <> 0.
Proof.
  intros Hreach.
  pose proof (reachable_configured q r kf Hreach) as Hc.
  destruct (reachable_well_shaped q r kf Hreach) as [HP _].
  destruct (reachable_covariance q r Hq (Qclt_le_weak _ _ Hr) kf Hreach)
    as [_ Hpsd].
  rewrite (innovation_cov_S_of q r kf Hc).
  apply S_of_invertible; auto using reachable_checkerboard.
Qed.

End Checkerboard.

(** Without rounding, a positive measurement noise keeps the innovation
    covariance invertible: neither [update] nor [process] of module
    [Kalman] raises in a state a constructed filter can reach. *)
Lemma update_succeeds q r kf m :
  0 <= q -> 0 < r -> reachable q r kf ->
  exists pos kf', update kf m = (Ok pos, kf').
Proof.
  intros Hq Hr Hreach. destruct (initialized kf) eqn:Hi.
  - destruct (inv (innovation_cov kf)) as [Si|] eqn:HS.
    + rewrite (update_corrects kf m Si Hi HS). cbv zeta. eauto.
    + apply inv_None in HS.
      now destruct (innovation_invertible q r Hq Hr kf Hreach).
  - rewrite (update_first kf m Hi). cbv zeta. eauto.
Qed.

Lemma process_succeeds q r kf m :
  0 <= q -> 0 < r -> reachable q r kf ->
  exists pos kf', process kf m = (Ok pos, kf') /\ reachable q r kf'.
Proof.
  intros Hq Hr Hreach.
  assert (Hreach' : reachable q r (snd (process kf m))).
  { rewrite process_unfold.
    apply (reach_step q r _ (Update m)).
    now apply (reach_step q r _ Predict). }
  revert Hreach'. rewrite process_unfold.
  destruct (update_succeeds q r (snd (predict kf)) m Hq Hr
              (reach_step q r kf Predict Hreach)) as (pos & kf' & E).
  rewrite E. eauto.
Qed.

(** *** Predictions before the first measurement *)

Lemma predicted_state d x0 x1 x2 x3 :
  dot_mv (A_matrix d) [x0; x1; x2; x3] = [x0 + d * x2; x1 + d * x3; x2; x3].
Proof. unfold A_matrix. mat_cbn. entrywise ltac:(ring). Qed.

Lemma predict_explicit q r kf x0 x1 x2 x3 :
  configured q r kf -> x kf = [x0; x1; x2; x3] ->
  x (snd (predict kf)) = [x0 + x2; x1 + x3; x2; x3] /\
  fst (predict kf) = [x0 + x2; x1 + x3].
Proof.
  intros Hc Ex. unfold predict. cbn [fst snd x set_P set_x].
  destruct Hc as (-> & _). rewrite Ex, predicted_state.
  replace (1 * x2) with x2 by ring. replace (1 * x3) with x3 by ring.
  split; reflexivity.
Qed.

(** X8.  Before the first measurement the state stays at the origin: after
    any number of [predict] calls and no [update], the state vector of a new
    filter is [0, 0, 0, 0] and [predict] returns the position [0, 0]. *)
Theorem predict_before_first_measurement (q r : Qc) (calls : list call) :
  existsb is_update calls = false ->
  let kf := run (init q r) calls in
  x kf = [0; 0; 0; 0] /\ fst (predict kf) = [0; 0].
Proof.
  intros Hnone kf.
  assert (Hinv : reachable q r kf /\ x kf = [0; 0; 0; 0]).
  { subst kf.
    assert (H0 : reachable q r (init q r) /\ x (init q r) = [0; 0; 0; 0])
      by (split; [constructor | reflexivity]).
    revert H0. generalize (init q r).
    induction calls as [|c calls IH]; intros kf0 [Hreach Ex]; [now split|].
    destruct c as [|m]; [|discriminate Hnone].
    apply (IH Hnone). split; [now apply (reach_step q r kf0 Predict)|].
    destruct (predict_explicit q r kf0 _ _ _ _
                (reachable_configured q r kf0 Hreach) Ex) as [E _].
    unfold step. rewrite E. now rewrite Qcplus_0_r. }
  destruct Hinv as [Hreach Ex]. split; [exact Ex|].
  destruct (predict_explicit q r kf _ _ _ _
              (reachable_configured q r kf Hreach) Ex) as [_ ->].
  now rewrite Qcplus_0_r.
Qed.

(** X8 at a default filter after two calls of [predict]. *)
Lemma predict_before_first_measurement_witness :
  let kf := run (init default_noise default_noise) [Predict; Predict] in
  x kf = [0; 0; 0; 0] /\ fst (predict kf) = [0; 0].
Proof.
  apply (predict_before_first_measurement default_noise default_noise
           [Predict; Predict]).
  reflexivity.
Defined.

(** ** The fusion router *)

Section FusionTheory.
Import Fusion.

Lemma process_fresh (q r : Qc) (m : Kalman.measurement) :
  exists kf', process (init q r) m = (Ok [fst m; snd m], kf')
              /\ x kf' = [fst m; snd m; 0; 0] /\ initialized kf' = true.
Proof. eexists. repeat split. Qed.

Lemma correct_position_unseen (request : CorrectionRequest)
    (vf : gmap string KalmanFilter) :
  vf !! vehicle_id request = None ->
  exists kf',
    correct_position request vf
    = (Ok (measurement request), <[vehicle_id request := kf']> vf) /\
    x kf' = [lat (measurement request); lon (measurement request); 0; 0] /\
    initialized kf' = true.
Proof.
  intros Hnone. unfold correct_position. rewrite Hnone.
  rewrite lookup_insert_eq.
  destruct (process_fresh (Q2Qc 0.0001) (Q2Qc 0.01)
              (lat (measurement request), lon (measurement request)))
    as (kf' & Hp & Hx & Hi).
  rewrite Hp. exists kf'. simpl. rewrite insert_insert_eq.
  destruct request as [vid [la lo]]. simpl in *. auto.
Qed.

(** C8.  On an empty registry the sample [(19.0760, 72.8777)] of entity
    ["7"] comes back unchanged; the next sample [(19.0761, 72.8778)]
    comes back strictly between the two measurements in each coordinate,
    equal to neither.  The same holds for the positions that
    [ingest_telemetry] stores for the registered vehicle 7. *)
Theorem example_scenario_smoothing :
  let first := correct_position sample1 ∅ in
  let s1 :=
    snd (Ingestion.ingest_telemetry Ingestion.noon Ingestion.telemetry1
           Ingestion.fleet) in
  let s2 :=
    snd (Ingestion.ingest_telemetry Ingestion.noon Ingestion.telemetry2 s1) in
  (fst first = Ok (mkGeoPoint (Q2Qc 19.0760) (Q2Qc 72.8777)) /\
   exists p,
     fst (correct_position sample2 (snd first)) = Ok p /\
     Q2Qc 19.0760 < lat p < Q2Qc 19.0761 /\
     Q2Qc 72.8777 < lon p < Q2Qc 72.8778 /\
     lat p <> Q2Qc 19.0760 /\ lat p <> Q2Qc 19.0761 /\
     lon p <> Q2Qc 72.8777 /\ lon p <> Q2Qc 72.8778) /\
  (exists row1 row2,
     Ingestion.location_tracking s2 = [row1; row2] /\
     Ingestion.loc_latitude row1 = Q2Qc 19.0760 /\
     Ingestion.loc_longitude row1 = Q2Qc 72.8777 /\
     Q2Qc 19.0760 < Ingestion.loc_latitude row2 < Q2Qc 19.0761 /\
     Q2Qc 72.8777 < Ingestion.loc_longitude row2 < Q2Qc 72.8778).
Proof.
  cbv zeta. split.
  - split; [vm_compute; reflexivity|].
    eexists. split; [vm_compute; reflexivity|].
    cbn [lat lon].
    repeat split; try (vm_compute; reflexivity);
      intros Heq; apply (f_equal this) in Heq; vm_compute in Heq;
      discriminate Heq.
  - do 2 eexists. split; [vm_compute; reflexivity|].
    cbn [Ingestion.loc_latitude Ingestion.loc_longitude].
    repeat split; vm_compute; reflexivity.
Qed.

(** C5, as the specification words it, fails: resetting an entity that
    has no filter is answered with 404, not with a success. *)
Lemma reset_unknown_is_error :
  reset_filter "7" ∅ = (Err (HTTPException 404 "Vehicle filter not found"), ∅)
  /\ ~ exists resp vf', reset_filter "7" ∅ = (Ok resp, vf').
Proof.
  split; [reflexivity|]. intros (resp & vf' & Heq). discriminate Heq.
Qed.

(** C5, amended.  [reset_filter] is total.  For an entity without a
    filter it answers 404 and leaves the registry as it is; for an entity
    with a filter it answers "reset" and discards the filter.  Either way
    the entity has no filter afterwards and the other entities keep
    theirs, a second reset changes nothing (it answers 404), and the next
    [correct_position] creates a new, uninitialized filter: it returns
    its measurement unchanged, with zero velocity. *)
Theorem reset_filter_discards (vid : string)
    (vf : gmap string KalmanFilter) (m : GeoPoint) :
  let '(res, vf') := reset_filter vid vf in
  (vf !! vid = None ->
     res = Err (HTTPException 404 "Vehicle filter not found") /\ vf' = vf) /\
  (is_Some (vf !! vid) ->
     res = Ok (mkResetResponse "reset" vid) /\ vf' = delete vid vf) /\
  vf' !! vid = None /\
  (forall other, other <> vid -> vf' !! other = vf !! other) /\
  reset_filter vid vf'
    = (Err (HTTPException 404 "Vehicle filter not found"), vf') /\
  exists kf',
    correct_position (mkCorrectionRequest vid m) vf'
    = (Ok m, <[vid := kf']> vf') /\
    x kf' = [lat m; lon m; 0; 0] /\ initialized kf' = true.
Proof.
  unfold reset_filter. destruct (vf !! vid) as [kf|] eqn:Hlook.
  - assert (Hdel : delete vid vf !! vid = None) by apply lookup_delete_eq.
    split; [discriminate|].
    split; [auto|].
    split; [exact Hdel|].
    split; [intros other Hne; now apply lookup_delete_ne|].
    split; [now rewrite Hdel|].
    apply (correct_position_unseen (mkCorrectionRequest vid m)). exact Hdel.
  - split; [auto|].
    split; [intros [? ?]; discriminate|].
    split; [exact Hlook|].
    split; [reflexivity|].
    split; [now rewrite Hlook|].
    apply (correct_position_unseen (mkCorrectionRequest vid m)). exact Hlook.
Qed.
(** *** Streams of requests *)

(** [correct_position] in one expression: the filter it works on is the
    vehicle's own, or a new one. *)
Lemma correct_position_unfold body vf :
  let kf :=
    match vf !! vehicle_id body with
    | Some kf => kf
    | None => init (Q2Qc 0.0001) (Q2Qc 0.01)
    end in
  let out :=
    process kf (lat (measurement body), lon (measurement body)) in
  correct_position body vf
  = (match fst out with
     | Ok corrected => Ok (mkGeoPoint (nth 0 corrected 0) (nth 1 corrected 0))
     | Err LinAlgError => Err InternalServerError
     end,
     <[vehicle_id body := snd out]> vf).
Proof.
  unfold correct_position. cbv zeta.
  destruct (vf !! vehicle_id body) as [kf|] eqn:Hlook.
  - rewrite Hlook.
    destruct (process kf (lat (measurement body), lon (measurement body)))
      as [[pos|[]] kf']; reflexivity.
  - rewrite lookup_insert_eq.
    destruct (process (init (Q2Qc 0.0001) (Q2Qc 0.01))
                (lat (measurement body), lon (measurement body)))
      as [[pos|[]] kf']; cbn [fst snd]; now rewrite insert_insert_eq.
Qed.

(** What [correct_position] answers and stores is read off the entry of
    its own vehicle; the other entries stay. *)
Lemma correct_position_local body vf1 vf2 :
  vf1 !! vehicle_id body = vf2 !! vehicle_id body ->
  fst (correct_position body vf1) = fst (correct_position body vf2) /\
  snd (correct_position body vf1) !! vehicle_id body
  = snd (correct_position body vf2) !! vehicle_id body.
Proof.
  intros Heq. rewrite !correct_position_unfold. cbv zeta. cbn [fst snd].
  rewrite !lookup_insert_eq, Heq. split; reflexivity.
Qed.

Lemma correct_position_others body vf other :
  other <> vehicle_id body ->
  snd (correct_position body vf) !! other = vf !! other.
Proof.
  intros Hne. rewrite correct_position_unfold. cbv zeta. cbn [snd].
  now rewrite lookup_insert_ne.
Qed.

Lemma handle_concerned vid rq vf1 vf2 :
  concerns vid rq = true -> vf1 !! vid = vf2 !! vid ->
  handle vf1 rq !! vid = handle vf2 rq !! vid.
Proof.
  destruct rq as [body|v]; simpl; intros Hc Heq;
    apply bool_decide_eq_true in Hc; subst vid.
  - now apply correct_position_local.
  - unfold reset_filter. rewrite <- Heq.
    destruct (vf1 !! v) eqn:Hlook; simpl; [|congruence].
    now rewrite !lookup_delete_eq.
Qed.

Lemma handle_unconcerned vid rq vf :
  concerns vid rq = false -> handle vf rq !! vid = vf !! vid.
Proof.
  destruct rq as [body|v]; simpl; intros Hc;
    apply bool_decide_eq_false in Hc.
  - apply correct_position_others. congruence.
  - unfold reset_filter. destruct (vf !! v); simpl; [|reflexivity].
    apply lookup_delete_ne. congruence.
Qed.

Lemma serve_own_requests vid rqs : forall vf1 vf2,
  vf1 !! vid = vf2 !! vid ->
  serve vf1 rqs !! vid = serve vf2 (List.filter (concerns vid) rqs) !! vid.
Proof.
  induction rqs as [|rq rqs IH]; intros vf1 vf2 Heq; [exact Heq|].
  simpl. destruct (concerns vid rq) eqn:Hc; simpl.
  - apply IH. now apply handle_concerned.
  - apply IH. now rewrite handle_unconcerned.
Qed.

(** X11.  The filter of a vehicle sees the requests of that vehicle only:
    after any sequence of requests the registry entry of a vehicle, and the
    answer of [correct_position] to its next measurement, are what the
    requests about that vehicle alone would have given, in their order. *)
Theorem vehicles_are_filtered_independently
    (vf : gmap string KalmanFilter) (rqs : list request)
    (body : CorrectionRequest) :
  let own := List.filter (concerns (vehicle_id body)) rqs in
  serve vf rqs !! vehicle_id body = serve vf own !! vehicle_id body /\
  fst (correct_position body (serve vf rqs))
  = fst (correct_position body (serve vf own)).
Proof.
  intros own.
  assert (H : serve vf rqs !! vehicle_id body = serve vf own !! vehicle_id body)
    by now apply serve_own_requests.
  split; [exact H|]. now apply correct_position_local.
Qed.

End FusionTheory.

(** ** The ingestion router *)

Section IngestionTheory.
Import Ingestion.
Local Open Scope Qc_scope.

Lemma required_between_Ok name lo hi v a :
  required_between name lo hi v = Ok a -> v = Some a /\ lo <= a /\ a <= hi.
Proof.
  unfold required_between. destruct v as [b|]; [|discriminate].
  destruct (bool_decide (lo <= b)) eqn:E1; [|discriminate].
  destruct (bool_decide (b <= hi)) eqn:E2; [|discriminate].
  simpl. intros [= <-].
  apply bool_decide_eq_true in E1, E2. auto.
Qed.

Lemma in_range_not_out lo hi v a :
  v = Some a -> lo <= a -> a <= hi -> ~ out_of_range lo hi v.
Proof.
  intros -> Hlo Hhi (b & [= <-] & [Hb | Hb]).
  - exact (Qclt_not_le _ _ Hb Hlo).
  - exact (Qclt_not_le _ _ Hb Hhi).
Qed.

Lemma validate_rejects raw :
  invalid_position raw -> exists e, validate raw = Err e.
Proof.
  intros Hinv. unfold validate.
  destruct (raw_vehicle_id raw) as [vid|] eqn:Evid; simpl; [|eauto].
  destruct (required_between "latitude" _ _ (raw_latitude raw)) as [la|e] eqn:Ela;
    simpl; [|eauto].
  destruct (required_between "longitude" _ _ (raw_longitude raw)) as [lo|e] eqn:Elo;
    simpl; [|eauto].
  exfalso.
  apply required_between_Ok in Ela as (Hla & Hla1 & Hla2).
  apply required_between_Ok in Elo as (Hlo & Hlo1 & Hlo2).
  destruct Hinv as [H0 | [H0 | [H0 | [H0 | H0]]]]; try congruence.
  - exact (in_range_not_out _ _ _ _ Hla Hla1 Hla2 H0).
  - exact (in_range_not_out _ _ _ _ Hlo Hlo1 Hlo2 H0).
Qed.

Lemma validate_all_rejects raw raws :
  In raw raws -> invalid_position raw -> exists e, validate_all raws = Err e.
Proof.
  intros Hin Hinv. induction raws as [|r rest IH]; [contradiction|].
  simpl. destruct (validate r) as [t|e] eqn:Ev; simpl; [|eauto].
  destruct Hin as [-> | Hin].
  - destruct (validate_rejects raw Hinv) as [e He]. congruence.
  - destruct (IH Hin) as [e ->]. simpl. eauto.
Qed.

(** The ingestion routes check the record before the handler runs.  A
    telemetry record whose latitude is outside [-90, 90], whose longitude
    is outside [-180, 180], or that lacks [vehicle_id], [latitude] or
    [longitude], is rejected with a validation error and the state
    (filters, cache, published messages, tables) is exactly what it was; a
    bulk request that contains such a record is rejected in the same
    way. *)
Theorem invalid_record_rejected (now : datetime) (raw : RawTelemetry)
    (s : State) :
  invalid_position raw ->
  (exists e, post_telemetry now raw s = (Err (RequestValidationError e), s)) /\
  (forall raws, In raw raws ->
     exists e, post_telemetry_bulk now raws s
               = (Err (RequestValidationError e), s)).
Proof.
  intros Hinv. split.
  - destruct (validate_rejects raw Hinv) as [e He].
    exists e. unfold post_telemetry. now rewrite He.
  - intros raws Hin. destruct (validate_all_rejects raw raws Hin Hinv) as [e He].
    exists e. unfold post_telemetry_bulk. now rewrite He.
Qed.

(** So it is for a record with latitude 91. *)
Lemma invalid_record_rejected_witness :
  (exists e, post_telemetry noon raw_north_of_pole fleet
             = (Err (RequestValidationError e), fleet)) /\
  (forall raws, In raw_north_of_pole raws ->
     exists e, post_telemetry_bulk noon raws fleet
               = (Err (RequestValidationError e), fleet)).
Proof.
  apply (invalid_record_rejected noon raw_north_of_pole fleet).
  right. right. right. left.
  exists (Qc_of_Z 91). split; [reflexivity|].
  right. unfold Qclt, Qlt. simpl. lia.
Defined.

(** C6 fails on the route [POST /correct].  The model [GeoPoint] of
    [fusion/service.py] puts no range on [lat] and [lon]: a request that
    puts vehicle ["7"] at latitude 91 is not rejected.  On an empty
    registry it is answered with that very position, and a filter
    initialized at it is created and stored.  The same position posted to
    [POST /telemetry] is rejected by the model [TelemetryData], and the
    state is what it was. *)
Theorem correct_accepts_out_of_range :
  let kf' :=
    snd (process (init (Q2Qc 0.0001) (Q2Qc 0.01))
           (Qc_of_Z 91, Q2Qc 72.8777)) in
  Fusion.outside_range (Fusion.measurement Fusion.north_of_pole) /\
  (Fusion.correct_position Fusion.north_of_pole ∅
   = (Ok (Fusion.mkGeoPoint (Qc_of_Z 91) (Q2Qc 72.8777)), {[ "7" := kf' ]}) /\
   x kf' = [Qc_of_Z 91; Q2Qc 72.8777; 0; 0] /\ initialized kf' = true) /\
  (exists e, post_telemetry noon raw_north_of_pole fleet
             = (Err (RequestValidationError e), fleet)).
Proof.
  cbv zeta. split; [|split].
  - right. left. reflexivity.
  - split; [vm_compute; reflexivity | split; reflexivity].
  - assert (Hinv : invalid_position raw_north_of_pole).
    { right. right. right. left.
      exists (Qc_of_Z 91). split; [reflexivity|]. right. reflexivity. }
    destruct (validate_rejects raw_north_of_pole Hinv) as [e He].
    exists e. unfold post_telemetry. now rewrite He.
Qed.

(** C10.  A record for a vehicle that is not in the table [vehicles] is
    answered with 404 "Vehicle <id> not found", and the state is exactly
    what it was: no filter is created or updated, nothing is cached and
    nothing is published. *)
Theorem unregistered_vehicle_rejected (now : datetime)
    (telemetry : TelemetryData) (s : State) :
  vehicles s !! vehicle_id telemetry = None ->
  ingest_telemetry now telemetry s
  = (Err (HTTPException 404 (not_found (vehicle_id telemetry))), s).
Proof. intros Hnone. unfold ingest_telemetry. now rewrite Hnone. Qed.

(** C10 at vehicle 8, which [fleet] does not know. *)
Lemma unregistered_vehicle_witness :
  ingest_telemetry noon telemetry_unknown fleet
  = (Err (HTTPException 404 (not_found 8)), fleet).
Proof.
  apply (unregistered_vehicle_rejected noon telemetry_unknown fleet).
  vm_compute. reflexivity.
Defined.

(** What a successful call of [ingest_telemetry] caches and publishes. *)
Lemma ingest_publishes_raw now telemetry s vehicle resp s' :
  vehicles s !! vehicle_id telemetry = Some vehicle ->
  ingest_telemetry now telemetry s = (Ok resp, s') ->
  let location_data :=
    mkLocationData (latitude telemetry) (longitude telemetry)
                   (speed telemetry) (direction telemetry)
                   (default now (timestamp telemetry))
                   (vehicle_number vehicle) in
  redis_cache s' = <[vehicle_id telemetry := (default_ttl, location_data)]>
                     (redis_cache s) /\
  redis_published s'
  = redis_published s
    ++ [(VehicleUpdates (vehicle_id telemetry), mkMessage None location_data);
        (AllUpdates, mkMessage (Some (vehicle_id telemetry)) location_data)].
Proof.
  intros Hv. unfold ingest_telemetry. rewrite Hv.
  destruct (kf_storage s !! vehicle_id telemetry) as [kf0|] eqn:Hk.
  - rewrite Hk.
    destruct (process kf0 _) as [[pos|[]] kf']; [|discriminate].
    intros [= _ <-]. split; reflexivity.
  - cbn [kf_storage set_kf_storage]. rewrite lookup_insert_eq.
    destruct (process _ _) as [[pos|[]] kf']; [|discriminate].
    intros [= _ <-]. split; reflexivity.
Qed.

(** C3, evaluated.  Vehicle 7 sends [(19.0760, 72.8777)] and then
    [(19.0761, 72.8778)]; both calls succeed.  After the second call the
    cache entry and both published messages carry the raw measurement
    [(19.0761, 72.8778)], while the row stored in [location_tracking]
    carries the smoothed position, which is smaller in both
    coordinates. *)
Theorem cache_holds_raw_position_example :
  let '(_, s1) := ingest_telemetry noon telemetry1 fleet in
  let '(r2, s2) := ingest_telemetry noon telemetry2 s1 in
  (exists resp, r2 = Ok resp) /\
  exists ttl cached row,
    redis_cache s2 !! 7%Z = Some (ttl, cached) /\
    last (location_tracking s2) = Some row /\
    ld_latitude cached = Q2Qc 19.0761 /\
    ld_longitude cached = Q2Qc 72.8778 /\
    map (fun cm => (ld_latitude (msg_body (snd cm)),
                    ld_longitude (msg_body (snd cm))))
        (skipn 2 (redis_published s2))
    = [(Q2Qc 19.0761, Q2Qc 72.8778); (Q2Qc 19.0761, Q2Qc 72.8778)] /\
    loc_latitude row < ld_latitude cached /\
    loc_longitude row < ld_longitude cached.
Proof.
  vm_compute. split; [eauto|].
  do 3 eexists. repeat split; reflexivity.
Qed.

Lemma bulk_step_registered now s points pending count errs t v :
  vehicles s !! vehicle_id t = Some v ->
  bulk_step now (after_bulk s points, pending, count, errs) t
  = (after_bulk s (points ++ [bulk_point now t]),
     pending ++ [bulk_row now t], S count, errs).
Proof.
  intros Hv. unfold bulk_step. cbn [vehicles after_bulk]. rewrite Hv.
  unfold write_telemetry, after_bulk, bulk_point, bulk_row. cbn.
  now rewrite app_assoc.
Qed.

Lemma bulk_step_unregistered now s points pending count errs t :
  vehicles s !! vehicle_id t = None ->
  bulk_step now (after_bulk s points, pending, count, errs) t
  = (after_bulk s points, pending, count,
     errs ++ [not_found (vehicle_id t)]).
Proof.
  intros Hv. unfold bulk_step. cbn [vehicles after_bulk]. now rewrite Hv.
Qed.

Lemma bulk_loop now data : forall s points pending count errs,
  fold_left (bulk_step now) data (after_bulk s points, pending, count, errs)
  = (after_bulk s (points ++ map (bulk_point now) (List.filter (registered s) data)),
     pending ++ map (bulk_row now) (List.filter (registered s) data),
     (count + length (List.filter (registered s) data))%nat,
     errs ++ map (fun t => not_found (vehicle_id t))
               (List.filter (fun t => negb (registered s t)) data)).
Proof.
  induction data as [|t data IH]; intros s points pending count errs.
  - simpl. now rewrite !app_nil_r, Nat.add_0_r.
  - cbn [fold_left List.filter].
    destruct (vehicles s !! vehicle_id t) as [v|] eqn:Hv.
    + assert (Hreg : registered s t = true)
        by (unfold registered; now rewrite Hv).
      rewrite (bulk_step_registered _ _ _ _ _ _ _ _ Hv), IH, Hreg.
      cbn [negb map length]. rewrite <- !app_assoc. cbn [app].
      now rewrite Nat.add_succ_comm.
    + assert (Hreg : registered s t = false)
        by (unfold registered; now rewrite Hv).
      rewrite (bulk_step_unregistered _ _ _ _ _ _ _ Hv), IH, Hreg.
      cbn [negb map]. now rewrite <- app_assoc.
Qed.

Lemma after_bulk_nil s : after_bulk s [] = s.
Proof. destruct s. unfold after_bulk. cbn. now rewrite app_nil_r. Qed.

(** C4, as the specification words it, fails: a bulk request with the one
    record [telemetry1] leaves the cache empty, where [ingest_telemetry]
    fills it. *)
Lemma bulk_skips_live_pipeline :
  ~ bulk_runs_pipeline noon [telemetry1] fleet.
Proof.
  intros (_ & Hcache & _).
  apply (f_equal (fun c => fmap fst (c !! 7%Z))) in Hcache.
  vm_compute in Hcache. discriminate Hcache.
Qed.

(** C4, amended.  Bulk ingestion looks up the vehicle of each record in
    turn.  A record of a registered vehicle is stored with its position as
    measured (one row, one time-series point) and counted; a record of an
    unknown vehicle adds its "not found" message to [errors] and the loop
    goes on.  The answer is always a success that reports
    [ingested_count], the number of accepted records, [total_records] and
    the messages in the order of the records ([None] when there is none).
    Nothing is written to the cache and nothing is published. *)
Theorem bulk_ingest_partial_success (now : datetime)
    (data : list TelemetryData) (s : State) :
  let accepted := List.filter (registered s) data in
  let rejected := List.filter (fun t => negb (registered s t)) data in
  let '(res, s') := ingest_bulk_telemetry now data s in
  res = Ok (mkBulkResponse "success" (length accepted) (length data)
              (match rejected with
               | [] => None
               | _ => Some (map (fun t => not_found (vehicle_id t)) rejected)
               end)) /\
  location_tracking s' = location_tracking s ++ map (bulk_row now) accepted /\
  influx s' = influx s ++ map (bulk_point now) accepted /\
  redis_cache s' = redis_cache s /\
  redis_published s' = redis_published s /\
  (length accepted + length rejected = length data)%nat.
Proof.
  cbv zeta. unfold ingest_bulk_telemetry.
  pose proof (bulk_loop now data s [] [] 0%nat []) as Hloop.
  rewrite after_bulk_nil in Hloop. rewrite Hloop. cbn [app Nat.add].
  split; [|split; [|split; [|split; [|split]]]]; try reflexivity.
  - now destruct (List.filter (fun t => negb (registered s t)) data).
  - clear. induction data as [|t data IH]; [reflexivity|].
    cbn [List.filter]. destruct (registered s t); cbn [negb length]; lia.
Qed.

(** The bulk handler never reads or writes [kf_storage]. *)
Lemma bulk_leaves_filters (now : datetime) (data : list TelemetryData)
    (s : State) :
  kf_storage (snd (ingest_bulk_telemetry now data s)) = kf_storage s.
Proof.
  unfold ingest_bulk_telemetry.
  pose proof (bulk_loop now data s [] [] 0%nat []) as Hloop.
  rewrite after_bulk_nil in Hloop. now rewrite Hloop.
Qed.

(** *** What the model accepts *)

Lemma optional_check_Ok name ok v w :
  optional_check name ok v = Ok w ->
  w = v /\ forall a, v = Some a -> ok a = true.
Proof.
  unfold optional_check. destruct v as [b|].
  - destruct (ok b) eqn:E; [|discriminate].
    intros [= <-]. split; [reflexivity|]. now intros a [= <-].
  - intros [= <-]. split; [reflexivity|]. discriminate.
Qed.

Lemma required_between_accepts name lo hi a :
  lo <= a -> a <= hi -> required_between name lo hi (Some a) = Ok a.
Proof.
  intros H1 H2. unfold required_between.
  now rewrite !bool_decide_eq_true_2.
Qed.

Lemma optional_check_accepts name ok v :
  (forall a, v = Some a -> ok a = true) -> optional_check name ok v = Ok v.
Proof.
  intros H. unfold optional_check. destruct v as [b|]; [|reflexivity].
  now rewrite (H b eq_refl).
Qed.

(** X12.  A body is accepted as the record [t] exactly when it has
    [vehicle_id], [latitude] and [longitude], every field of [t] is the
    field of the body, the latitude is within [-90, 90], the longitude
    within [-180, 180], and [speed], [direction] and [fuel_level], where
    present, are at least 0, within [0, 360] and within [0, 100];
    [accuracy], [altitude], [acceleration] and [timestamp] are not
    constrained. *)
Theorem validate_accepts_exactly (raw : RawTelemetry) (t : TelemetryData) :
  validate raw = Ok t <->
  (raw_vehicle_id raw = Some (vehicle_id t) /\
   raw_latitude raw = Some (latitude t) /\
   raw_longitude raw = Some (longitude t) /\
   raw_speed raw = speed t /\
   raw_direction raw = direction t /\
   raw_accuracy raw = accuracy t /\
   raw_altitude raw = altitude t /\
   raw_acceleration raw = acceleration t /\
   raw_fuel_level raw = fuel_level t /\
   raw_timestamp raw = timestamp t) /\
  Qc_of_Z (-90) <= latitude t <= Qc_of_Z 90 /\
  Qc_of_Z (-180) <= longitude t <= Qc_of_Z 180 /\
  at_least 0 (speed t) /\
  within 0 (Qc_of_Z 360) (direction t) /\
  within 0 (Qc_of_Z 100) (fuel_level t).
Proof.
  split.
  - unfold validate.
    destruct (raw_vehicle_id raw) as [vid|]; [|discriminate].
    cbn [bind].
    destruct (required_between "latitude" _ _ (raw_latitude raw))
      as [la|e] eqn:Ela; [|discriminate].
    destruct (required_between "longitude" _ _ (raw_longitude raw))
      as [lo|e] eqn:Elo; [|discriminate].
    cbn [bind].
    destruct (optional_check "speed" _ (raw_speed raw))
      as [sp|e] eqn:Esp; [|discriminate].
    destruct (optional_check "direction" _ (raw_direction raw))
      as [di|e] eqn:Edi; [|discriminate].
    destruct (optional_check "fuel_level" _ (raw_fuel_level raw))
      as [fu|e] eqn:Efu; [|discriminate].
    cbn [bind]. intros [= <-].
    cbn [vehicle_id latitude longitude speed direction accuracy altitude
         acceleration fuel_level timestamp].
    apply required_between_Ok in Ela as (Hla & Hla1 & Hla2).
    apply required_between_Ok in Elo as (Hlo & Hlo1 & Hlo2).
    apply optional_check_Ok in Esp as [-> Hsp].
    apply optional_check_Ok in Edi as [-> Hdi].
    apply optional_check_Ok in Efu as [-> Hfu].
    split; [repeat split; assumption || reflexivity|].
    split; [now split|]. split; [now split|].
    split; [|split].
    + intros a Ha. apply Hsp in Ha. now apply bool_decide_eq_true in Ha.
    + intros a Ha. apply Hdi, andb_prop in Ha as [H1 H2].
      apply bool_decide_eq_true in H1, H2. now split.
    + intros a Ha. apply Hfu, andb_prop in Ha as [H1 H2].
      apply bool_decide_eq_true in H1, H2. now split.
  - intros ((Hvid & Hla & Hlo & Hsp & Hdi & Hac & Hal & Hacc & Hfu & Hts)
            & [Hla1 Hla2] & [Hlo1 Hlo2] & Csp & Cdi & Cfu).
    unfold validate. rewrite Hvid, Hla, Hlo, Hsp, Hdi, Hac, Hal, Hacc, Hfu, Hts.
    cbn [bind].
    rewrite (required_between_accepts _ _ _ _ Hla1 Hla2),
            (required_between_accepts _ _ _ _ Hlo1 Hlo2).
    cbn [bind].
    rewrite !optional_check_accepts.
    + cbn [bind]. now destruct t.
    + intros a Ha. destruct (Cfu a Ha).
      now rewrite !bool_decide_eq_true_2.
    + intros a Ha. destruct (Cdi a Ha).
      now rewrite !bool_decide_eq_true_2.
    + intros a Ha. apply bool_decide_eq_true_2. now apply Csp.
Qed.

(** *** Streams of requests *)

Lemma ingest_telemetry_unfold now t s vehicle :
  vehicles s !! vehicle_id t = Some vehicle ->
  let vid := vehicle_id t in
  let out := process (filter_of s vid) (latitude t, longitude t) in
  let kfs := <[vid := snd out]> (kf_storage s) in
  ingest_telemetry now t s
  = match fst out with
    | Err LinAlgError => (Err InternalServerError, set_kf_storage s kfs)
    | Ok pos =>
        (Ok (mkIngestResponse "success" (S (length (location_tracking s)))
               (default now (timestamp t))),
         mkState (vehicles s)
                 (location_tracking s ++ [live_row now t pos])
                 (influx s ++ [live_point now t])
                 kfs
                 (<[vid := (default_ttl, live_location now t vehicle)]>
                    (redis_cache s))
                 (redis_published s
                  ++ [(VehicleUpdates vid,
                       mkMessage None (live_location now t vehicle));
                      (AllUpdates,
                       mkMessage (Some vid) (live_location now t vehicle))]))
    end.
Proof.
  intros Hv. cbv zeta. unfold ingest_telemetry, filter_of. rewrite Hv.
  destruct (kf_storage s !! vehicle_id t) as [kf0|] eqn:Hk.
  - rewrite Hk.
    destruct (process kf0 (latitude t, longitude t)) as [[pos|[]] kf'];
      [|reflexivity].
    cbn [fst snd]. unfold db_insert, write_telemetry, set_vehicle_location,
      publish_location_update, set_kf_storage. cbn.
    rewrite length_app. cbn [length]. rewrite Nat.add_1_r. reflexivity.
  - cbn [kf_storage set_kf_storage]. rewrite lookup_insert_eq.
    destruct (process (init default_noise default_noise)
                (latitude t, longitude t)) as [[pos|[]] kf'];
      cbn [fst snd]; unfold db_insert, write_telemetry,
        set_vehicle_location, publish_location_update, set_kf_storage; cbn;
      rewrite insert_insert_eq; [|reflexivity].
    rewrite length_app. cbn [length]. rewrite Nat.add_1_r. reflexivity.
Qed.

Lemma default_noise_positive : 0 <= default_noise /\ 0 < default_noise.
Proof. split; [unfold Qcle, Qle; simpl; lia | vm_compute; reflexivity]. Qed.

Lemma ingest_telemetry_smoothing now t s vehicle :
  smoothing s -> vehicles s !! vehicle_id t = Some vehicle ->
  exists resp s',
    ingest_telemetry now t s = (Ok resp, s') /\ smoothing s' /\
    resp_status resp = "success".
Proof.
  intros Hs Hv. rewrite (ingest_telemetry_unfold now t s vehicle Hv).
  cbv zeta. destruct default_noise_positive as [Hq Hr].
  assert (Hreach : reachable default_noise default_noise
                     (filter_of s (vehicle_id t))).
  { unfold filter_of.
    destruct (kf_storage s !! vehicle_id t) as [kf|] eqn:Hk;
      [exact (Hs _ _ Hk) | constructor]. }
  destruct (process_succeeds _ _ _ (latitude t, longitude t) Hq Hr Hreach)
    as (pos & kf' & E & Hreach').
  rewrite E. cbn [fst snd]. do 2 eexists. split; [reflexivity|].
  split; [|reflexivity].
  unfold smoothing. cbn [kf_storage]. now apply map_Forall_insert_2.
Qed.

Lemma ingest_telemetry_vehicles now t s :
  vehicles (snd (ingest_telemetry now t s)) = vehicles s.
Proof.
  destruct (vehicles s !! vehicle_id t) as [v|] eqn:Hv.
  - rewrite (ingest_telemetry_unfold now t s v Hv). cbv zeta.
    now destruct (fst (process _ _)) as [pos|[]].
  - unfold ingest_telemetry. now rewrite Hv.
Qed.

Lemma bulk_state now data s :
  snd (ingest_bulk_telemetry now data s)
  = mkState (vehicles s)
      (location_tracking s
       ++ map (bulk_row now) (List.filter (registered s) data))
      (influx s ++ map (bulk_point now) (List.filter (registered s) data))
      (kf_storage s) (redis_cache s) (redis_published s).
Proof.
  unfold ingest_bulk_telemetry.
  pose proof (bulk_loop now data s [] [] 0%nat []) as Hloop.
  rewrite after_bulk_nil in Hloop. now rewrite Hloop.
Qed.

Lemma handle_vehicles s rq : vehicles (handle s rq) = vehicles s.
Proof.
  destruct rq as [now raw|now raws]; simpl.
  - unfold post_telemetry. destruct (validate raw); [|reflexivity].
    apply ingest_telemetry_vehicles.
  - unfold post_telemetry_bulk. destruct (validate_all raws); [|reflexivity].
    now rewrite bulk_state.
Qed.

Lemma handle_smoothing s rq : smoothing s -> smoothing (handle s rq).
Proof.
  intros Hs. destruct rq as [now raw|now raws]; simpl.
  - unfold post_telemetry. destruct (validate raw) as [t|e]; [|exact Hs].
    destruct (vehicles s !! vehicle_id t) as [v|] eqn:Hv.
    + destruct (ingest_telemetry_smoothing now t s v Hs Hv)
        as (resp & s' & E & Hs' & _).
      now rewrite E.
    + unfold ingest_telemetry. now rewrite Hv.
  - unfold post_telemetry_bulk.
    destruct (validate_all raws) as [data|e]; [|exact Hs].
    now rewrite bulk_state.
Qed.

Lemma serve_invariant rqs : forall s,
  smoothing s ->
  smoothing (serve s rqs) /\ vehicles (serve s rqs) = vehicles s.
Proof.
  induction rqs as [|rq rqs IH]; intros s Hs; [now split|].
  destruct (IH (handle s rq) (handle_smoothing s rq Hs)) as [H1 H2].
  split; [exact H1|].
  change (serve s (rq :: rqs)) with (serve (handle s rq) rqs).
  rewrite H2. apply handle_vehicles.
Qed.

(** X13.  Starting from a state without filters, after any sequence of
    requests to [POST /telemetry] and [POST /telemetry/bulk] (valid or not,
    for known or unknown vehicles), [ingest_telemetry] answers a record of a
    registered vehicle with the status success: the filter never raises
    there. *)
Theorem registered_vehicle_always_ingested
    (s : State) (rqs : list request) (now : datetime) (t : TelemetryData)
    (vehicle : Vehicle) :
  kf_storage s = ∅ ->
  vehicles s !! vehicle_id t = Some vehicle ->
  exists resp s',
    ingest_telemetry now t (serve s rqs) = (Ok resp, s') /\
    resp_status resp = "success".
Proof.
  intros Hempty Hv.
  assert (Hs : smoothing s)
    by (unfold smoothing; rewrite Hempty; apply map_Forall_empty).
  destruct (serve_invariant rqs s Hs) as [Hs' Hveh].
  rewrite <- Hveh in Hv.
  destruct (ingest_telemetry_smoothing now t _ vehicle Hs' Hv)
    as (resp & s' & E & _ & Hst).
  eauto.
Qed.

(** X13 at [fleet] after one request, for the second fix of vehicle 7. *)
Lemma registered_vehicle_witness :
  exists resp s',
    ingest_telemetry noon telemetry2
      (serve fleet [PostTelemetry noon raw_telemetry1]) = (Ok resp, s') /\
    resp_status resp = "success".
Proof.
  apply (registered_vehicle_always_ingested fleet
           [PostTelemetry noon raw_telemetry1] noon telemetry2
           (mkVehicle "MH-01-AB-1234" "truck")).
  - reflexivity.
  - vm_compute. reflexivity.
Defined.

(** X14.  [ingest_telemetry] for one vehicle leaves every other vehicle as it
    was: its filter, its cache entry, its rows in [location_tracking] and
    the messages published about it; the table [vehicles] is never written. *)
Theorem ingest_touches_one_vehicle
    (now : datetime) (t : TelemetryData) (s : State) (other : Z) :
  other <> vehicle_id t ->
  let s' := snd (ingest_telemetry now t s) in
  vehicles s' = vehicles s /\
  kf_storage s' !! other = kf_storage s !! other /\
  redis_cache s' !! other = redis_cache s !! other /\
  List.filter (row_of other) (location_tracking s')
  = List.filter (row_of other) (location_tracking s) /\
  List.filter (about other) (redis_published s')
  = List.filter (about other) (redis_published s).
Proof.
  intros Hne s'. subst s'.
  destruct (vehicles s !! vehicle_id t) as [v|] eqn:Hv.
  - rewrite (ingest_telemetry_unfold now t s v Hv). cbv zeta.
    destruct (fst (process _ _)) as [pos|[]]; unfold set_kf_storage;
      cbn [snd vehicles kf_storage redis_cache location_tracking
           redis_published];
      rewrite ?lookup_insert_ne by congruence; [|now repeat split].
    rewrite !List.filter_app. cbn [List.filter].
    unfold row_of, about. cbn [fst snd loc_vehicle_id live_row msg_vehicle_id].
    rewrite !bool_decide_eq_false_2 by congruence.
    now rewrite !app_nil_r.
  - unfold ingest_telemetry. rewrite Hv. now repeat split.
Qed.

(** X14 at [fleet], a fix of vehicle 7 and the vehicle 8. *)
Lemma ingest_touches_one_vehicle_witness :
  let s' := snd (ingest_telemetry noon telemetry1 fleet) in
  vehicles s' = vehicles fleet /\
  kf_storage s' !! 8%Z = kf_storage fleet !! 8%Z /\
  redis_cache s' !! 8%Z = redis_cache fleet !! 8%Z /\
  List.filter (row_of 8) (location_tracking s')
  = List.filter (row_of 8) (location_tracking fleet) /\
  List.filter (about 8) (redis_published s')
  = List.filter (about 8) (redis_published fleet).
Proof.
  apply (ingest_touches_one_vehicle noon telemetry1 fleet 8).
  vm_compute. discriminate.
Defined.

Lemma bulk_answer now data s :
  fst (ingest_bulk_telemetry now data s)
  = Ok (mkBulkResponse "success"
          (length (List.filter (registered s) data)) (length data)
          (let errs :=
             map (fun t => not_found (vehicle_id t))
                 (List.filter (fun t => negb (registered s t)) data) in
           match errs with
           | [] => None
           | _ => Some errs
           end)).
Proof.
  unfold ingest_bulk_telemetry.
  pose proof (bulk_loop now data s [] [] 0%nat []) as Hloop.
  rewrite after_bulk_nil in Hloop. now rewrite Hloop.
Qed.

Lemma error_list_answer status count total (errs : list string) :
  error_list (mkBulkResponse status count total
                (match errs with [] => None | _ => Some errs end))
  = errs.
Proof. now destruct errs. Qed.

(** X15.  A batch may be split: ingesting [d1 ++ d2] in one bulk request
    leaves the state that ingesting [d1] and then [d2] leaves, and its
    answer counts the ingested records, the total and the error messages of
    the two answers together. *)
Theorem bulk_batches_compose
    (now : datetime) (d1 d2 : list TelemetryData) (s : State) :
  let out1 := ingest_bulk_telemetry now d1 s in
  let out2 := ingest_bulk_telemetry now d2 (snd out1) in
  let out := ingest_bulk_telemetry now (d1 ++ d2) s in
  snd out = snd out2 /\
  exists b1 b2 b,
    fst out1 = Ok b1 /\ fst out2 = Ok b2 /\ fst out = Ok b /\
    ingested_count b = (ingested_count b1 + ingested_count b2)%nat /\
    total_records b = (total_records b1 + total_records b2)%nat /\
    error_list b = error_list b1 ++ error_list b2.
Proof.
  cbv zeta.
  assert (Hreg : registered (snd (ingest_bulk_telemetry now d1 s))
                 = registered s) by now rewrite bulk_state.
  rewrite !bulk_answer, (bulk_state now d2), (bulk_state now (d1 ++ d2)).
  rewrite !Hreg, bulk_state. cbv zeta.
  cbn [vehicles location_tracking influx kf_storage redis_cache
       redis_published].
  split.
  - now rewrite !List.filter_app, !map_app, !app_assoc.
  - do 3 eexists. split; [reflexivity|]. split; [reflexivity|].
    split; [reflexivity|].
    cbn [ingested_count total_records].
    rewrite !error_list_answer, !List.filter_app, !map_app, !length_app.
    now repeat split.
Qed.



Lemma updates_of_app vid l1 l2 :
  updates_of vid (l1 ++ l2) = updates_of vid l1 ++ updates_of vid l2.
Proof. apply omap_app. Qed.

Lemma updates_of_pair vid v m1 m2 :
  updates_of vid [(VehicleUpdates v, m1); (AllUpdates, m2)]
  = if bool_decide (v = vid) then [msg_body m1] else [].
Proof. unfold updates_of. simpl. now destruct (bool_decide (v = vid)). Qed.

Lemma ingest_mirrors now t s :
  cache_mirrors_updates s ->
  cache_mirrors_updates (snd (ingest_telemetry now t s)).
Proof.
  intros Hs. destruct (vehicles s !! vehicle_id t) as [v|] eqn:Hv.
  - rewrite (ingest_telemetry_unfold now t s v Hv). cbv zeta.
    destruct (fst (process _ _)) as [pos|[]]; [|exact Hs].
    intros vid. cbn [snd redis_cache redis_published].
    rewrite updates_of_app, updates_of_pair. cbn [msg_body].
    destruct (decide (vehicle_id t = vid)) as [E|Hne].
    + rewrite E, lookup_insert_eq, bool_decide_eq_true_2 by reflexivity.
      now rewrite last_snoc.
    + rewrite lookup_insert_ne, bool_decide_eq_false_2 by assumption.
      rewrite app_nil_r. apply Hs.
  - unfold ingest_telemetry. now rewrite Hv.
Qed.

Lemma handle_mirrors s rq :
  cache_mirrors_updates s -> cache_mirrors_updates (handle s rq).
Proof.
  intros Hs. destruct rq as [now raw|now raws]; simpl.
  - unfold post_telemetry. destruct (validate raw) as [t|e]; [|exact Hs].
    now apply ingest_mirrors.
  - unfold post_telemetry_bulk.
    destruct (validate_all raws) as [data|e]; [|exact Hs].
    rewrite bulk_state. exact Hs.
Qed.

(** X17.  Starting from an empty cache with nothing published, after any
    sequence of requests to the ingestion router the cache entry of every
    vehicle is the last payload published on the channel of that vehicle,
    with the default time to live; a vehicle on whose channel nothing was
    published has no entry. *)
Theorem cache_mirrors_last_update (s : State) (rqs : list request) :
  redis_cache s = ∅ -> redis_published s = [] ->
  cache_mirrors_updates (serve s rqs).
Proof.
  intros Hc Hp.
  assert (Hs : cache_mirrors_updates s).
  { intros vid. now rewrite Hc, Hp, lookup_empty. }
  clear Hc Hp. revert s Hs.
  induction rqs as [|rq rqs IH]; intros s Hs; [exact Hs|].
  apply (IH (handle s rq)). now apply handle_mirrors.
Qed.

(** X17 at [fleet] after one request. *)
Lemma cache_mirrors_last_update_witness :
  cache_mirrors_updates (serve fleet [PostTelemetry noon raw_telemetry1]).
Proof.
  apply (cache_mirrors_last_update fleet [PostTelemetry noon raw_telemetry1]).
  - reflexivity.
  - reflexivity.
Defined.

(** *** The names of keys and channels *)

Lemma pretty_N_go_not_a x : forall s s',
  s <> "a" +:+ s' -> pretty_N_go x s <> "a" +:+ s'.
Proof.
  induction (N.lt_wf_0 x) as [x _ IH]. intros s s' Hs.
  destruct (N.eq_dec x 0%N) as [->|Hx].
  - now rewrite pretty_N_go_0.
  - rewrite pretty_N_go_step by lia. apply IH.
    + apply N.div_lt; lia.
    + intros [= Hc _]. unfold pretty_N_char in Hc.
      repeat case_match; discriminate.
Qed.

Lemma pretty_Z_not_all (z : Z) : pretty z <> "all".
Proof.
  destruct z as [|p|p]; [discriminate| |discriminate].
  unfold pretty, pretty_Z, pretty, pretty_positive, pretty, pretty_N.
  destruct (decide (N.pos p = 0%N)); [discriminate|].
  now apply pretty_N_go_not_a.
Qed.

(** X18.  The names [RedisManager] builds do not collide: the key of a cached
    location determines the vehicle, the name of a channel determines the
    channel (no vehicle's channel is the global one), and no key is the name
    of a channel. *)
Theorem redis_names_distinct :
  (forall v1 v2, location_key v1 = location_key v2 -> v1 = v2) /\
  (forall c1 c2, channel_name c1 = channel_name c2 -> c1 = c2) /\
  (forall v c, location_key v <> channel_name c).
Proof.
  split; [|split].
  - intros v1 v2 H. unfold location_key in H.
    apply (inj (String.append _)) in H. now apply (inj pretty).
  - intros [v1|] [v2|] H; cbn [channel_name] in H.
    + apply (inj (String.append _)) in H. f_equal. now apply (inj pretty).
    + change "vehicle:updates:all" with ("vehicle:updates:" +:+ "all") in H.
      apply (inj (String.append _)) in H. now destruct (pretty_Z_not_all v1).
    + change "vehicle:updates:all" with ("vehicle:updates:" +:+ "all") in H.
      apply (inj (String.append _)) in H. symmetry in H.
      now destruct (pretty_Z_not_all v2).
    + reflexivity.
  - intros v [v'|]; unfold location_key; cbn; discriminate.
Qed.

End IngestionTheory.

(** ** The routing and prediction routers *)

Section RoutingTheory.
Import Ingestion Routing.

(** X19.  After a successful [ingest_telemetry], [get_traffic_context] for
    that vehicle answers with the position as measured (not the smoothed
    one), the speed, direction and timestamp of the record and the number of
    the vehicle; for every other vehicle it answers what it answered before. *)
Theorem traffic_context_follows_ingestion
    (now : datetime) (t : TelemetryData) (s s' : State)
    (resp : IngestResponse) :
  ingest_telemetry now t s = (Ok resp, s') ->
  (exists vehicle,
     vehicles s !! Ingestion.vehicle_id t = Some vehicle /\
     get_traffic_context (Ingestion.vehicle_id t) s'
     = Ok (mkTrafficContext
             "Traffic context retrieval not fully implemented yet"
             (mkLocationData (latitude t) (longitude t) (speed t)
                             (direction t) (default now (timestamp t))
                             (vehicle_number vehicle)))) /\
  forall other, other <> Ingestion.vehicle_id t ->
    get_traffic_context other s' = get_traffic_context other s.
Proof.
  intros Hok.
  destruct (vehicles s !! Ingestion.vehicle_id t) as [v|] eqn:Hv;
    [|unfold ingest_telemetry in Hok; rewrite Hv in Hok; discriminate Hok].
  destruct (ingest_publishes_raw now t s v resp s' Hv Hok) as [Hcache _].
  unfold get_traffic_context, get_vehicle_location. rewrite Hcache. split.
  - exists v. split; [reflexivity|]. now rewrite lookup_insert_eq.
  - intros other Hne. now rewrite lookup_insert_ne.
Qed.

(** X19 at [fleet] and the first fix of vehicle 7. *)
Lemma traffic_context_witness :
  let s' := snd (ingest_telemetry noon telemetry1 fleet) in
  (exists vehicle,
     vehicles fleet !! 7%Z = Some vehicle /\
     Routing.get_traffic_context 7 s'
     = Ok (Routing.mkTrafficContext
             "Traffic context retrieval not fully implemented yet"
             (mkLocationData (Q2Qc 19.0760) (Q2Qc 72.8777) None None noon
                             (vehicle_number vehicle)))) /\
  forall other, other <> 7%Z ->
    Routing.get_traffic_context other s'
    = Routing.get_traffic_context other fleet.
Proof.
  apply (traffic_context_follows_ingestion noon telemetry1 fleet
           (snd (ingest_telemetry noon telemetry1 fleet))
           (mkIngestResponse "success" 1 noon)).
  vm_compute. reflexivity.
Defined.

End RoutingTheory.

Section PredictionTheory.
Import Ingestion Prediction.

Lemma getitem_lat location : getitem location "lat" = None.
Proof. reflexivity. Qed.

(** X20.  [predict_eta] never computes an estimate from a location that
    [ingest_telemetry] cached: such a dict has the keys [latitude] and
    [longitude], and the handler reads the key [lat]. It answers with the
    cached prediction if there is one, with 404 if no location is cached,
    and fails with [KeyError] otherwise; it leaves the state as it was, so
    from an empty prediction cache every request is answered with an error. *)
Theorem predict_eta_never_estimates
    (estimate : Qc -> Qc -> ETARequest -> PredictionData)
    (request : ETARequest) (s : Prediction.State) :
  snd (predict_eta estimate request s) = s /\
  fst (predict_eta estimate request s)
  = match get_cached_prediction (Prediction.vehicle_id request) s with
    | Some cached => Ok cached
    | None =>
        match get_vehicle_location (Prediction.vehicle_id request)
                (tracking s) with
        | None => Err (HTTPException 404 "Vehicle position unknown")
        | Some _ => Err InternalServerError
        end
    end /\
  (prediction_cache s = ∅ ->
   exists e, fst (predict_eta estimate request s) = Err e).
Proof.
  unfold predict_eta, get_cached_prediction.
  destruct (prediction_cache s !! Prediction.vehicle_id request)
    as [[ttl cached]|] eqn:Hc; cbn [fmap option_fmap option_map snd].
  - repeat split. intros Hempty. now rewrite Hempty in Hc.
  - destruct (get_vehicle_location _ _) as [loc|];
      [rewrite getitem_lat|]; repeat split; eauto.
Qed.

End PredictionTheory.

(** ** The WebSocket manager *)

Section GatewayTheory.
Import Gateway.

Lemma broadcast_loop_map conns m :
  broadcast_loop conns m = map (deliver m) conns.
Proof.
  induction conns as [|c conns IH]; [reflexivity|].
  simpl. unfold send_json, deliver. destruct (ws_open c); now rewrite IH.
Qed.

Lemma deliver_id m c : ws_id (deliver m c) = ws_id c.
Proof. unfold deliver. now destruct (ws_open c). Qed.

(** C9, as the specification words it, fails: the subscriber whose
    delivery fails is still among [active_connections] after the
    broadcast, and a manager whose only subscriber fails is left exactly
    as it was: the failure is recorded nowhere. *)
Lemma failed_subscriber_stays :
  ~ drops_failed two_subscribers update_message /\
  broadcast (mkManager [mkWebSocket 1 false []]) update_message
  = mkManager [mkWebSocket 1 false []].
Proof.
  split; [|reflexivity].
  intros Hclaim.
  apply (Hclaim (mkWebSocket 1 false [])); [left; reflexivity | reflexivity |].
  left. reflexivity.
Qed.

(** C9, amended.  A broadcast attempts delivery to every subscriber in
    turn.  A failure is caught and dropped in silence: the failing
    subscriber stays in [active_connections], unchanged, and every
    subscriber whose delivery succeeds has the message appended to what
    it was sent.  The set of subscribers is the same before and after. *)
Theorem broadcast_reaches_live_subscribers
    (mgr : ConnectionManager) (m : message) :
  active_connections (broadcast mgr m)
  = map (deliver m) (active_connections mgr) /\
  map ws_id (active_connections (broadcast mgr m))
  = map ws_id (active_connections mgr) /\
  forall c, In c (active_connections mgr) ->
    (ws_open c = true ->
       In (mkWebSocket (ws_id c) true (ws_sent c ++ [m]))
          (active_connections (broadcast mgr m))) /\
    (ws_open c = false -> In c (active_connections (broadcast mgr m))).
Proof.
  unfold broadcast. cbn [active_connections]. rewrite broadcast_loop_map.
  split; [reflexivity|]. split.
  - rewrite map_map. apply map_ext. intros c. apply deliver_id.
  - intros c Hin. split; intros Hopen.
    + apply in_map_iff. exists c. split; [|exact Hin].
      unfold deliver. now rewrite Hopen.
    + apply in_map_iff. exists c. split; [|exact Hin].
      unfold deliver. now rewrite Hopen.
Qed.
(** *** Connections come and go; broadcasts follow one another *)

Lemma others_absent websocket conns :
  ~ In (ws_id websocket) (map ws_id conns) -> others websocket conns = conns.
Proof.
  induction conns as [|c conns IH]; [reflexivity|].
  cbn [map others List.filter]. intros Hnot.
  destruct (Nat.eqb_spec (ws_id c) (ws_id websocket)) as [E|Hne].
  - exfalso. apply Hnot. now left.
  - cbn [negb]. fold (others websocket conns).
    rewrite IH; [reflexivity|]. intros Hin. apply Hnot. now right.
Qed.

Lemma remove_others websocket conns :
  List.NoDup (map ws_id conns) -> remove websocket conns = others websocket conns.
Proof.
  induction conns as [|c conns IH]; [reflexivity|].
  cbn [map remove others List.filter]. intros Hnd.
  apply List.NoDup_cons_iff in Hnd as [Hnot Hnd].
  destruct (Nat.eqb_spec (ws_id c) (ws_id websocket)) as [E|Hne]; cbn [negb].
  - fold (others websocket conns). rewrite others_absent; [reflexivity|].
    now rewrite <- E.
  - fold (others websocket conns). now rewrite IH.
Qed.

Lemma connected_spec mgr websocket :
  connected mgr websocket = true
  <-> In (ws_id websocket) (map ws_id (active_connections mgr)).
Proof.
  unfold connected. rewrite existsb_exists, in_map_iff.
  split; intros (c & H1 & H2).
  - exists c. apply Nat.eqb_eq in H2. now split.
  - exists c. split; [exact H2|]. now apply Nat.eqb_eq.
Qed.

Lemma disconnect_others mgr websocket :
  List.NoDup (map ws_id (active_connections mgr)) ->
  active_connections (disconnect mgr websocket)
  = others websocket (active_connections mgr).
Proof.
  intros Hnd. unfold disconnect.
  destruct (connected mgr websocket) eqn:Hc; cbn [active_connections].
  - now apply remove_others.
  - symmetry. apply others_absent. rewrite <- connected_spec. congruence.
Qed.

Lemma others_ids websocket conns :
  ~ In (ws_id websocket) (map ws_id (others websocket conns)).
Proof.
  rewrite in_map_iff. intros (c & E & Hin).
  apply filter_In in Hin as [_ Hne].
  apply negb_true_iff, Nat.eqb_neq in Hne. congruence.
Qed.

Lemma others_deliver websocket m conns :
  others websocket (map (deliver m) conns)
  = map (deliver m) (others websocket conns).
Proof.
  unfold others. induction conns as [|c conns IH]; [reflexivity|].
  cbn [List.filter map]. rewrite deliver_id, IH.
  now destruct (ws_id c =? ws_id websocket)%nat.
Qed.

(** X21.  On a manager whose connections are distinct, [disconnect] removes
    the given connection and keeps the others in their order, so that a
    later broadcast reaches exactly the others; a connection that is not in
    the list is ignored, and [disconnect] after [connect] of a new
    connection gives the manager back. *)
Theorem disconnect_removes_the_connection
    (mgr : ConnectionManager) (websocket : WebSocket) :
  List.NoDup (map ws_id (active_connections mgr)) ->
  active_connections (disconnect mgr websocket)
  = others websocket (active_connections mgr) /\
  connected (disconnect mgr websocket) websocket = false /\
  (forall m,
     active_connections (broadcast (disconnect mgr websocket) m)
     = others websocket (active_connections (broadcast mgr m))) /\
  (connected mgr websocket = false ->
   disconnect mgr websocket = mgr /\
   disconnect (connect mgr websocket) websocket = mgr).
Proof.
  intros Hnd. pose proof (disconnect_others mgr websocket Hnd) as Hd.
  split; [exact Hd|]. split; [|split].
  - apply not_true_is_false. rewrite connected_spec, Hd.
    apply others_ids.
  - intros m. unfold broadcast. cbn [active_connections].
    now rewrite Hd, !broadcast_loop_map, others_deliver.
  - intros Hc. split; [unfold disconnect; now rewrite Hc|].
    assert (Hnot : ~ In (ws_id websocket) (map ws_id (active_connections mgr)))
      by (rewrite <- connected_spec; congruence).
    unfold disconnect, connect, connected. cbn [active_connections].
    rewrite existsb_app. cbn [existsb]. rewrite Nat.eqb_refl, orb_true_r.
    destruct mgr as [conns]. cbn [active_connections] in *. f_equal.
    clear Hnd Hd Hc. induction conns as [|c conns IH]; cbn [app remove].
    + now rewrite Nat.eqb_refl.
    + destruct (Nat.eqb_spec (ws_id c) (ws_id websocket)) as [E|Hne].
      * exfalso. apply Hnot. now left.
      * rewrite IH; [reflexivity|]. intros Hin. apply Hnot. now right.
Qed.

(** X21 at [two_subscribers] and its first connection. *)
Lemma disconnect_witness :
  let websocket := mkWebSocket 1 false [] in
  active_connections (disconnect two_subscribers websocket)
  = others websocket (active_connections two_subscribers) /\
  connected (disconnect two_subscribers websocket) websocket = false /\
  (forall m,
     active_connections (broadcast (disconnect two_subscribers websocket) m)
     = others websocket (active_connections (broadcast two_subscribers m))) /\
  (connected two_subscribers websocket = false ->
   disconnect two_subscribers websocket = two_subscribers /\
   disconnect (connect two_subscribers websocket) websocket = two_subscribers).
Proof.
  apply (disconnect_removes_the_connection two_subscribers
           (mkWebSocket 1 false [])).
  repeat constructor; cbn; intuition discriminate.
Defined.

Lemma deliver_all_nil c : deliver_all [] c = c.
Proof.
  unfold deliver_all. destruct c as [i o sent]. cbn.
  destruct o; [|reflexivity]. now rewrite app_nil_r.
Qed.

Lemma deliver_all_cons m ms c :
  deliver_all ms (deliver m c) = deliver_all (m :: ms) c.
Proof.
  unfold deliver_all, deliver. destruct (ws_open c) eqn:Ho; cbn.
  - now rewrite <- app_assoc.
  - now rewrite Ho.
Qed.

(** X22.  Messages broadcast one after the other reach every open connection
    in the order of the broadcasts, appended to what it was sent before; a
    closed connection stays in the list, unchanged. *)
Theorem broadcasts_arrive_in_order
    (mgr : ConnectionManager) (ms : list message) :
  active_connections (broadcast_all mgr ms)
  = map (deliver_all ms) (active_connections mgr).
Proof.
  revert mgr. induction ms as [|m ms IH]; intros mgr.
  - cbn. rewrite <- (map_id (active_connections mgr)) at 1.
    apply map_ext. intros c. now rewrite deliver_all_nil.
  - change (broadcast_all mgr (m :: ms))
      with (broadcast_all (broadcast mgr m) ms).
    rewrite IH. unfold broadcast. cbn [active_connections].
    rewrite broadcast_loop_map, map_map.
    apply map_ext. intros c. apply deliver_all_cons.
Qed.

End GatewayTheory.
